(** * Blog application: data store and navigation controller

    A shallow embedding of the [Database] class and of the session and
    navigation part of [BlogApp] from [entirefile (1).py], with the
    properties of the specification stated over it.

    Conventions of the embedding.
    - A table with an [INTEGER PRIMARY KEY AUTOINCREMENT] column is a finite
      map from row id to row ([gmap Z row]); the largest id ever handed out
      (SQLite's [sqlite_sequence]) is kept next to it.
    - [CURRENT_TIMESTAMP] is an explicit argument [now]; timestamps are
      integers (seconds), which order like the text SQLite stores.
    - A method body wrapped in [try ... except] returns its tuple; a method
      without one returns in [Exc], where [Raise] is an exception leaving the
      method.
    - A persistence failure is the argument [fault]: [sqlite3.connect] raises
      it when it is [Some e].
    - [hashlib.sha256(...).hexdigest()] is a parameter of the development. *)

From Stdlib Require Import Ascii.
From stdpp Require Import base option list gmap strings sorting pretty.

Local Open Scope string_scope.
Local Open Scope Z_scope.

(** ** Exceptions *)

Inductive exn : Type :=
| IntegrityError (msg : string)
| OperationalError (msg : string)
| OSError (msg : string).

(** [str(e)] *)
Definition str (e : exn) : string :=
  match e with
  | IntegrityError msg => msg
  | OperationalError msg => msg
  | OSError msg => msg
  end.

Inductive Exc (A : Type) : Type :=
| Ok (a : A)
| Raise (e : exn).
Arguments Ok {A} a.
Arguments Raise {A} e.

#[global] Instance exc_ret : MRet Exc := λ A a, Ok a.
#[global] Instance exc_bind : MBind Exc := λ A B k m,
  match m with
  | Ok a => k a
  | Raise e => Raise e
  end.

(** ** Rows and tables *)

Record user_row : Type := mk_user {
  username : string;
  email : string;
  password : string;
  full_name : string;
  user_created_at : Z
}.

Record post_row : Type := mk_post {
  post_user_id : Z;
  title : string;
  content : string;
  category : string;
  image_path : option string;
  created_at : Z;
  updated_at : Z
}.

Record comment_row : Type := mk_comment {
  comment_post_id : Z;
  comment_user_id : Z;
  comment_text : string;
  comment_created_at : Z
}.

Record Store : Type := mk_store {
  users : gmap Z user_row;
  posts : gmap Z post_row;
  comments : gmap Z comment_row;
  seq_users : Z;
  seq_posts : Z;
  seq_comments : Z
}.

(** The database right after [create_tables] on a new file. *)
Definition empty_store : Store :=
  {| users := ∅; posts := ∅; comments := ∅;
     seq_users := 0; seq_posts := 0; seq_comments := 0 |}.

(** ** Connections *)

(** [get_connection] returns [sqlite3.connect(self.db_name)] and nothing
    else: no [PRAGMA foreign_keys = ON] is ever issued, so the connection
    keeps SQLite's default, foreign keys not enforced. *)
Record Connection : Type := { foreign_keys : bool }.

Definition get_connection (fault : option exn) : Exc Connection :=
  match fault with
  | Some e => Raise e
  | None => Ok {| foreign_keys := false |}
  end.

(** ** The SQL statements *)

(** Row id of an [AUTOINCREMENT] insert: one more than the largest id the
    table holds or ever held. *)
Definition max_rowid {A : Type} (t : gmap Z A) : Z :=
  foldr Z.max 0 (map_to_list t).*1.

Definition next_rowid {A : Type} (seq : Z) (t : gmap Z A) : Z :=
  Z.max seq (max_rowid t) + 1.

Definition username_taken (st : Store) (u : string) : bool :=
  bool_decide (Exists (λ kr, username kr.2 = u) (map_to_list (users st))).

Definition email_taken (st : Store) (e : string) : bool :=
  bool_decide (Exists (λ kr, email kr.2 = e) (map_to_list (users st))).

(** [INSERT INTO users (username, email, password, full_name)] under the
    two [UNIQUE] constraints of the table. *)
Definition sql_insert_user (now : Z) (st : Store)
    (u e pw fn : string) : Exc Store :=
  if username_taken st u then
    Raise (IntegrityError "UNIQUE constraint failed: users.username")
  else if email_taken st e then
    Raise (IntegrityError "UNIQUE constraint failed: users.email")
  else
    let id := next_rowid (seq_users st) (users st) in
    Ok {| users := <[id := mk_user u e pw fn now]> (users st);
          posts := posts st; comments := comments st;
          seq_users := id;
          seq_posts := seq_posts st; seq_comments := seq_comments st |}.

(** [SELECT user_id, full_name FROM users WHERE username = ? AND
    password = ?], then [fetchone]. *)
Definition sql_select_login (st : Store) (u hashed : string)
    : option (Z * string) :=
  head (omap (λ kr : Z * user_row,
                if decide (username kr.2 = u ∧ password kr.2 = hashed)
                then Some (kr.1, full_name kr.2) else None)
             (map_to_list (users st))).

(** [INSERT INTO posts (user_id, title, content, category, image_path)];
    the [FOREIGN KEY] clause is checked only on a connection that enforces
    foreign keys. *)
Definition sql_insert_post (conn : Connection) (now : Z) (st : Store)
    (uid : Z) (t c cat : string) (img : option string) : Exc (Z * Store) :=
  if foreign_keys conn && negb (bool_decide (is_Some (users st !! uid))) then
    Raise (IntegrityError "FOREIGN KEY constraint failed")
  else
    let id := next_rowid (seq_posts st) (posts st) in
    Ok (id,
        {| users := users st;
           posts := <[id := mk_post uid t c cat img now now]> (posts st);
           comments := comments st;
           seq_users := seq_users st;
           seq_posts := id; seq_comments := seq_comments st |}).

(** [UPDATE posts SET title = ?, content = ?, category = ?,
    updated_at = CURRENT_TIMESTAMP WHERE post_id = ?] *)
Definition set_post_text (t c cat : string) (now : Z) (p : post_row)
    : post_row :=
  {| post_user_id := post_user_id p;
     title := t; content := c; category := cat;
     image_path := image_path p;
     created_at := created_at p;
     updated_at := now |}.

Definition sql_update_post (now : Z) (st : Store)
    (pid : Z) (t c cat : string) : Store :=
  {| users := users st;
     posts := alter (set_post_text t c cat now) pid (posts st);
     comments := comments st;
     seq_users := seq_users st;
     seq_posts := seq_posts st; seq_comments := seq_comments st |}.

(** [DELETE FROM posts WHERE post_id = ?]; [ON DELETE CASCADE] of the
    comments table acts only on a connection that enforces foreign keys. *)
Definition sql_delete_post (conn : Connection) (st : Store) (pid : Z)
    : Store :=
  {| users := users st;
     posts := delete pid (posts st);
     comments :=
       if foreign_keys conn && bool_decide (is_Some (posts st !! pid))
       then filter (λ kc, comment_post_id kc.2 ≠ pid) (comments st)
       else comments st;
     seq_users := seq_users st;
     seq_posts := seq_posts st; seq_comments := seq_comments st |}.

(** [INSERT INTO comments (post_id, user_id, comment_text)] *)
Definition sql_insert_comment (conn : Connection) (now : Z) (st : Store)
    (pid uid : Z) (txt : string) : Exc Store :=
  if foreign_keys conn &&
     negb (bool_decide (is_Some (posts st !! pid)) &&
           bool_decide (is_Some (users st !! uid))) then
    Raise (IntegrityError "FOREIGN KEY constraint failed")
  else
    let id := next_rowid (seq_comments st) (comments st) in
    Ok {| users := users st; posts := posts st;
          comments := <[id := mk_comment pid uid txt now]> (comments st);
          seq_users := seq_users st; seq_posts := seq_posts st;
          seq_comments := id |}.

(** [ORDER BY key DESC]: a stable insertion sort, largest key first. SQLite
    leaves the order of rows with equal keys open; the properties below
    that mention the order only use that keys never increase. *)
Section order_by.
Context {A : Type} (key : A → Z).

Fixpoint insert_desc (x : A) (l : list A) : list A :=
  match l with
  | [] => [x]
  | y :: l' =>
      if bool_decide (key y ≤ key x) then x :: y :: l'
      else y :: insert_desc x l'
  end.

Definition order_by_desc (l : list A) : list A :=
  foldr insert_desc [] l.

Definition newest_first (l : list A) : Prop :=
  StronglySorted (λ a b, key b ≤ key a) l.
End order_by.

(** ** Query results *)

(** A row of [get_all_posts]: [(post_id, title, content, category,
    created_at, username, full_name, image_path)]. *)
Record post_listing : Type := mk_listing {
  pl_post_id : Z;
  pl_title : string;
  pl_content : string;
  pl_category : string;
  pl_created_at : Z;
  pl_username : string;
  pl_full_name : string;
  pl_image_path : option string
}.

(** A row of [get_user_posts]: [(post_id, title, content, category,
    created_at, image_path)]. *)
Record user_post : Type := mk_user_post {
  up_post_id : Z;
  up_title : string;
  up_content : string;
  up_category : string;
  up_created_at : Z;
  up_image_path : option string
}.

(** The row of [get_post_details]: [(post_id, title, content, category,
    created_at, username, full_name, user_id, image_path)]. *)
Record post_details : Type := mk_details {
  pd_post_id : Z;
  pd_title : string;
  pd_content : string;
  pd_category : string;
  pd_created_at : Z;
  pd_username : string;
  pd_full_name : string;
  pd_user_id : Z;
  pd_image_path : option string
}.

(** A row of [get_post_comments]: [(comment_id, comment_text, username,
    created_at)]. *)
Record comment_listing : Type := mk_comment_listing {
  cl_comment_id : Z;
  cl_comment_text : string;
  cl_username : string;
  cl_created_at : Z
}.

Definition listing_of (pid : Z) (p : post_row) (u : user_row)
    : post_listing :=
  mk_listing pid (title p) (content p) (category p) (created_at p)
             (username u) (full_name u) (image_path p).

Definition user_post_of (pid : Z) (p : post_row) : user_post :=
  mk_user_post pid (title p) (content p) (category p) (created_at p)
               (image_path p).

Definition details_of (pid : Z) (p : post_row) (u : user_row)
    : post_details :=
  mk_details pid (title p) (content p) (category p) (created_at p)
             (username u) (full_name u) (post_user_id p) (image_path p).

(** [FROM posts JOIN users ON posts.user_id = users.user_id]: an inner
    join on the primary key of [users]; a post whose [user_id] has no row
    in [users] yields nothing. *)
Definition join_post_user (st : Store) (kp : Z * post_row)
    : option post_listing :=
  u ← users st !! post_user_id kp.2; Some (listing_of kp.1 kp.2 u).

Definition sql_select_all_posts (st : Store) : list post_listing :=
  order_by_desc pl_created_at
    (omap (join_post_user st) (map_to_list (posts st))).

Definition sql_select_user_posts (st : Store) (uid : Z) : list user_post :=
  order_by_desc up_created_at
    ((λ kp : Z * post_row, user_post_of kp.1 kp.2) <$>
       filter (λ kp : Z * post_row, post_user_id kp.2 = uid)
              (map_to_list (posts st))).

Definition sql_select_post_details (st : Store) (pid : Z)
    : option post_details :=
  p ← posts st !! pid;
  u ← users st !! post_user_id p;
  Some (details_of pid p u).

Definition join_comment_user (st : Store) (kc : Z * comment_row)
    : option comment_listing :=
  u ← users st !! comment_user_id kc.2;
  Some (mk_comment_listing kc.1 (comment_text kc.2) (username u)
                           (comment_created_at kc.2)).

Definition sql_select_post_comments (st : Store) (pid : Z)
    : list comment_listing :=
  order_by_desc cl_created_at
    (omap (join_comment_user st)
       (filter (λ kc : Z * comment_row, comment_post_id kc.2 = pid)
               (map_to_list (comments st)))).

(** ** The file system seen by [create_post] *)

(** Files by path with their bytes, the directories, and whether the
    volume refuses writes. Paths are compared as written. *)
Record FS : Type := mk_fs {
  files : gmap string string;
  dirs : gset string;
  read_only : bool
}.

(** [os.path.basename] (POSIX): what follows the last slash. *)
Fixpoint basename_from (cur p : string) : string :=
  match p with
  | EmptyString => cur
  | String c rest =>
      if Ascii.eqb c "/"%char then basename_from rest rest
      else basename_from cur rest
  end.

Definition basename (p : string) : string := basename_from p p.

(** [os.path.exists] *)
Definition path_exists (fs : FS) (p : string) : bool :=
  bool_decide (is_Some (files fs !! p)) || bool_decide (p ∈ dirs fs).

(** [Path(d).mkdir(exist_ok=True)] *)
Definition mkdir_exist_ok (fs : FS) (d : string) : Exc FS :=
  if bool_decide (d ∈ dirs fs) then Ok fs
  else if bool_decide (is_Some (files fs !! d)) then
    Raise (OSError "File exists")
  else if read_only fs then Raise (OSError "Read-only file system")
  else Ok {| files := files fs; dirs := {[d]} ∪ dirs fs;
             read_only := read_only fs |}.

(** [str(Path(d) / name)]: an empty or [.] component adds nothing. *)
Definition path_div (d name : string) : string :=
  if bool_decide (name = "" ∨ name = ".") then d
  else d +:+ "/" +:+ name.

(** Where [shutil.copy2 src dst] writes: into [dst] when it is a
    directory, under the base name of [src]. *)
Definition copy2_target (fs : FS) (src dst : string) : string :=
  if bool_decide (dst ∈ dirs fs) then dst +:+ "/" +:+ basename src
  else dst.

(** [shutil.copy2] *)
Definition copy2 (fs : FS) (src dst : string) : Exc FS :=
  let target := copy2_target fs src dst in
  match files fs !! src with
  | None =>
      if bool_decide (src ∈ dirs fs) then Raise (OSError "Is a directory")
      else Raise (OSError "No such file or directory")
  | Some bytes =>
      if bool_decide (src = target) then
        Raise (OSError "source and destination are the same file")
      else if bool_decide (target ∈ dirs fs) then
        Raise (OSError "Is a directory")
      else if read_only fs then Raise (OSError "Read-only file system")
      else Ok {| files := <[target := bytes]> (files fs);
                 dirs := dirs fs; read_only := read_only fs |}
  end.

(** ** The methods of [Database] *)

(** The second component of [login_user]'s result: the row, [None], or
    [str(e)]. *)
Inductive login_payload : Type :=
| LoginRow (uid : Z) (fn : string)
| LoginNone
| LoginError (msg : string).

(** The second component of [create_post]'s result: [post_id] or
    [str(e)]. *)
Inductive create_payload : Type :=
| CreatedId (pid : Z)
| CreateError (msg : string).

Definition img_dir : string := "post_images".

(** Python truth of [image_path]: neither [None] nor the empty string. *)
Definition truthy (image : option string) : option string :=
  match image with
  | Some p => if bool_decide (p = "") then None else Some p
  | None => None
  end.

Section Database.
(** [hashlib.sha256(password.encode()).hexdigest()] *)
Variable sha256_hexdigest : string → string.

Definition hash_password (pw : string) : string := sha256_hexdigest pw.

Definition register_user (fault : option exn) (now : Z) (st : Store)
    (u e pw fn : string) : (bool * string) * Store :=
  match conn ← get_connection fault;
        sql_insert_user now st u e (hash_password pw) fn with
  | Ok st' => ((true, "Registration successful!"), st')
  | Raise (IntegrityError _) =>
      ((false, "Username or email already exists!"), st)
  | Raise e => ((false, "Error: " +:+ str e), st)
  end.

Definition login_user (fault : option exn) (st : Store)
    (u pw : string) : bool * login_payload :=
  match conn ← get_connection fault;
        mret (sql_select_login st u (hash_password pw)) with
  | Ok (Some (uid, fn)) => (true, LoginRow uid fn)
  | Ok None => (false, LoginNone)
  | Raise e => (false, LoginError (str e))
  end.
End Database.


Definition create_post (fault : option exn) (now : Z) (st : Store) (fs : FS)
    (uid : Z) (t c cat : string) (image : option string)
    : (bool * create_payload) * Store * FS :=
  match mkdir_exist_ok fs img_dir with
  | Raise e => ((false, CreateError (str e)), st, fs)
  | Ok fs1 =>
      let copied : Exc (option string * FS) :=
        match truthy image with
        | Some p =>
            if path_exists fs1 p then
              let stored_image_path := path_div img_dir (basename p) in
              fs2 ← copy2 fs1 p stored_image_path;
              mret (Some stored_image_path, fs2)
            else mret (None, fs1)
        | None => mret (None, fs1)
        end in
      match copied with
      | Raise e => ((false, CreateError (str e)), st, fs1)
      | Ok (stored_image_path, fs2) =>
          match conn ← get_connection fault;
                sql_insert_post conn now st uid t c cat stored_image_path with
          | Raise e => ((false, CreateError (str e)), st, fs2)
          | Ok (pid, st') => ((true, CreatedId pid), st', fs2)
          end
      end
  end.

Definition get_all_posts (fault : option exn) (st : Store)
    : Exc (list post_listing) :=
  conn ← get_connection fault; mret (sql_select_all_posts st).

Definition get_user_posts (fault : option exn) (st : Store) (uid : Z)
    : Exc (list user_post) :=
  conn ← get_connection fault; mret (sql_select_user_posts st uid).

Definition get_post_details (fault : option exn) (st : Store) (pid : Z)
    : Exc (option post_details) :=
  conn ← get_connection fault; mret (sql_select_post_details st pid).

Definition update_post (fault : option exn) (now : Z) (st : Store)
    (pid : Z) (t c cat : string) : (bool * string) * Store :=
  match conn ← get_connection fault;
        mret (sql_update_post now st pid t c cat) with
  | Ok st' => ((true, "Post updated successfully!"), st')
  | Raise e => ((false, str e), st)
  end.

Definition delete_post (fault : option exn) (st : Store) (pid : Z)
    : (bool * string) * Store :=
  match conn ← get_connection fault;
        mret (sql_delete_post conn st pid) with
  | Ok st' => ((true, "Post deleted successfully!"), st')
  | Raise e => ((false, str e), st)
  end.

Definition add_comment (fault : option exn) (now : Z) (st : Store)
    (pid uid : Z) (txt : string) : (bool * string) * Store :=
  match conn ← get_connection fault;
        sql_insert_comment conn now st pid uid txt with
  | Ok st' => ((true, "Comment added!"), st')
  | Raise e => ((false, str e), st)
  end.

Definition get_post_comments (fault : option exn) (st : Store) (pid : Z)
    : Exc (list comment_listing) :=
  conn ← get_connection fault; mret (sql_select_post_comments st pid).

(** ** Integrity of a store *)

(** Every post belongs to a user row. *)
Definition posts_have_owner (st : Store) : Prop :=
  map_Forall (λ _ p, is_Some (users st !! post_user_id p)) (posts st).

(** Every comment hangs on a post row and was written by a user row. *)
Definition comments_have_parents (st : Store) : Prop :=
  map_Forall (λ _ c, is_Some (posts st !! comment_post_id c) ∧
                     is_Some (users st !! comment_user_id c))
             (comments st).

Definition referential_integrity (st : Store) : Prop :=
  posts_have_owner st ∧ comments_have_parents st.

Definition unique_usernames (st : Store) : Prop :=
  ∀ i j r1 r2, users st !! i = Some r1 → users st !! j = Some r2 →
    username r1 = username r2 → i = j.

Definition unique_emails (st : Store) : Prop :=
  ∀ i j r1 r2, users st !! i = Some r1 → users st !! j = Some r2 →
    email r1 = email r2 → i = j.

(** The invariant of the data model. *)
Definition store_invariant (st : Store) : Prop :=
  referential_integrity st ∧ unique_usernames st ∧ unique_emails st.

(** ** Sequences of data store operations *)

Inductive op : Type :=
| RegisterUser (u e pw fn : string)
| CreatePost (uid : Z) (t c cat : string) (image : option string)
| UpdatePost (pid : Z) (t c cat : string)
| DeletePost (pid : Z)
| AddComment (pid uid : Z) (txt : string).

Section Reachable.
Variable sha256_hexdigest : string → string.

(** The store after one operation; the queries leave it as it is. *)
Definition run_op (fault : option exn) (now : Z) (fs : FS) (st : Store)
    (o : op) : Store :=
  match o with
  | RegisterUser u e pw fn =>
      (register_user sha256_hexdigest fault now st u e pw fn).2
  | CreatePost uid t c cat image =>
      (create_post fault now st fs uid t c cat image).1.2
  | UpdatePost pid t c cat => (update_post fault now st pid t c cat).2
  | DeletePost pid => (delete_post fault st pid).2
  | AddComment pid uid txt => (add_comment fault now st pid uid txt).2
  end.

(** The stores the operations can produce from a new database, whatever
    the clock, the files on disk and the failures along the way. *)
Inductive reachable : Store → Prop :=
| reachable_empty : reachable empty_store
| reachable_step st fault now fs o :
    reachable st → reachable (run_op fault now fs st o).
End Reachable.

(** ** The session and navigation controller *)

Inductive Page : Type :=
| LoginPage | SignupPage | HomePage | AboutPage | ContactPage | BlogPage
| MyPostsPage | PostDetailPage | GalleryPage | PostsTreeviewPage.

#[global] Instance Page_eq_dec : EqDecision Page.
Proof. solve_decision. Defined.

(** What [BlogApp] holds: [current_user] (the dict with [user_id] and
    [username], or [None]), the frames of [self.frames] in stacking order
    (all share one grid cell, so the top one is the page on screen), and
    the posts the home page shows. *)
Record BlogApp : Type := mk_app {
  current_user : option (Z * string);
  stacking : list Page;
  home_posts : list post_listing
}.

Definition active_page (app : BlogApp) : option Page := head (stacking app).

(** [frame.tkraise()] *)
Definition tkraise (p : Page) (z : list Page) : list Page :=
  p :: filter (λ q, q ≠ p) z.

(** [show_frame]: the home page reloads its posts before it is raised. *)
Definition show_frame (fault : option exn) (st : Store) (app : BlogApp)
    (cont : Page) : Exc BlogApp :=
  home ← (if decide (cont = HomePage) then get_all_posts fault st
          else mret (home_posts app));
  mret {| current_user := current_user app;
          stacking := tkraise cont (stacking app);
          home_posts := home |}.

Definition set_user (app : BlogApp) (uid : Z) (name : string) : BlogApp :=
  {| current_user := Some (uid, name);
     stacking := stacking app;
     home_posts := home_posts app |}.

Definition logout (fault : option exn) (st : Store) (app : BlogApp)
    : Exc BlogApp :=
  show_frame fault st
    {| current_user := None; stacking := stacking app;
       home_posts := home_posts app |}
    LoginPage.

(** [BlogApp.__init__]: no user, the ten frames created and gridded in
    the order of the tuple (a later frame lies above an earlier one; the
    home, gallery and tree pages query the posts while they are built),
    then [show_frame(LoginPage)]. *)
Definition frame_classes : list Page :=
  [LoginPage; SignupPage; HomePage; AboutPage; ContactPage; BlogPage;
   MyPostsPage; PostDetailPage; GalleryPage; PostsTreeviewPage].

Definition BlogApp_init (fault : option exn) (st : Store) : Exc BlogApp :=
  home ← get_all_posts fault st;
  show_frame fault st
    {| current_user := None;
       stacking := foldl (λ z p, p :: z) [] frame_classes;
       home_posts := home |}
    LoginPage.

(** The login transition, as [LoginPage.login] performs it once
    [login_user] has answered with a row: [set_user], then
    [show_frame(HomePage)]. *)
Definition login (fault : option exn) (st : Store) (app : BlogApp)
    (uid : Z) (name : string) : Exc BlogApp :=
  show_frame fault st (set_user app uid name) HomePage.

Section LoginPage.
Variable sha256_hexdigest : string → string.

(** [LoginPage.login] on the stripped contents of the two entries. *)
Definition LoginPage_login (fault : option exn) (st : Store)
    (app : BlogApp) (u pw : string) : Exc BlogApp :=
  if bool_decide (u = "" ∨ pw = "") then mret app
  else
    match login_user sha256_hexdigest fault st u pw with
    | (true, LoginRow uid fn) => login fault st app uid fn
    | _ => mret app
    end.
End LoginPage.

(** ** Example values *)

(** A stand-in digest for the concrete instances below. *)
Definition demo_digest (s : string) : string := "sha256:" +:+ s.

Definition db_unavailable : exn :=
  OperationalError "unable to open database file".

Definition no_files : FS := mk_fs ∅ ∅ false.

Definition store_alice : Store :=
  (register_user demo_digest None 100 empty_store
     "alice" "a@x.com" "secret1" "Alice A").2.

Definition store_alice_post : Store :=
  (create_post None 101 store_alice no_files
     1 "Hi" "Body text" "Technology" None).1.2.

Definition store_alice_comment : Store :=
  (add_comment None 102 store_alice_post 1 1 "Nice!").2.

(** A comment for post 7 by user 9, sent to a new database. *)
Definition store_orphan_comment : Store :=
  (add_comment None 50 empty_store 7 9 "orphan").2.

(** A post for user 42, sent to a new database. *)
Definition store_orphan_post : Store :=
  (create_post None 60 empty_store no_files
     42 "Ghost" "Body" "News" None).1.2.

(** A disk holding one picture. *)
Definition one_picture : FS :=
  mk_fs {[ "/home/alice/cat.png" := "PNG-bytes" ]} ∅ false.

(** A connection on which [PRAGMA foreign_keys = ON] was issued; none of
    the methods opens one. *)
Definition enforcing : Connection := {| foreign_keys := true |}.

(** ** Further definitions *)

(** What [get_post_details] returns for a post after [update_post] has
    replaced its three texts. *)
Definition retitled (t c cat : string) (d : post_details) : post_details :=
  mk_details (pd_post_id d) t c cat (pd_created_at d) (pd_username d)
             (pd_full_name d) (pd_user_id d) (pd_image_path d).

(** Every row id of the three tables lies between 1 and the table's
    counter. *)
Definition ids_bounded (st : Store) : Prop :=
  map_Forall (λ i _, 1 ≤ i ≤ seq_users st) (users st) ∧
  map_Forall (λ i _, 1 ≤ i ≤ seq_posts st) (posts st) ∧
  map_Forall (λ i _, 1 ≤ i ≤ seq_comments st) (comments st).

(** The columns [get_all_posts] shares with [get_post_details]. *)
Definition summary (d : post_details) : post_listing :=
  mk_listing (pd_post_id d) (pd_title d) (pd_content d) (pd_category d)
             (pd_created_at d) (pd_username d) (pd_full_name d)
             (pd_image_path d).

(** Whether a path has a slash in it. *)
Fixpoint contains_slash (s : string) : bool :=
  match s with
  | EmptyString => false
  | String c rest => Ascii.eqb c "/"%char || contains_slash rest
  end.

(** Two pictures of the same name in two directories. *)
Definition two_pictures : FS :=
  mk_fs {[ "/a/cat.png" := "first"; "/b/cat.png" := "second" ]} ∅ false.

(** ** The schema *)

(** The tables of a database file, each with its column names in order
    (a [gmap string (list string)]), and what [create_tables] and
    [migrate_add_image_path] do to it. The rows are those of [Store]. *)
Definition users_columns : list string :=
  ["user_id"; "username"; "email"; "password"; "full_name"; "created_at"].

Definition posts_columns : list string :=
  ["post_id"; "user_id"; "title"; "content"; "category"; "image_path";
   "created_at"; "updated_at"].

Definition comments_columns : list string :=
  ["comment_id"; "post_id"; "user_id"; "comment_text"; "created_at"].

(** [CREATE TABLE IF NOT EXISTS name (cols)] *)
Definition create_table_if_not_exists (name : string) (cols : list string)
    (s : gmap string (list string)) : gmap string (list string) :=
  match s !! name with
  | Some _ => s
  | None => <[name := cols]> s
  end.

(** [migrate_add_image_path]: [PRAGMA table_info(posts)] lists the columns
    (none for a missing table), [ALTER TABLE posts ADD COLUMN] appends
    one, and any exception is printed and dropped. *)
Definition migrate_add_image_path (fault : option exn)
    (s : gmap string (list string)) : gmap string (list string) :=
  match get_connection fault with
  | Raise _ => s
  | Ok _ =>
      let columns := default [] (s !! "posts") in
      if bool_decide ("image_path" ∈ columns) then s
      else
        match s !! "posts" with
        | Some cols => <["posts" := (cols ++ ["image_path"])%list]> s
        | None => s
        end
  end.

(** [create_tables]: one connection for the three [CREATE TABLE]
    statements, outside any [try], then the migration on a connection of
    its own. *)
Definition create_tables (fault migration_fault : option exn)
    (s : gmap string (list string)) : Exc (gmap string (list string)) :=
  conn ← get_connection fault;
  mret (migrate_add_image_path migration_fault
          (create_table_if_not_exists "comments" comments_columns
             (create_table_if_not_exists "posts" posts_columns
                (create_table_if_not_exists "users" users_columns s)))).

(** A database file written before posts had images. *)
Definition old_schema : gmap string (list string) :=
  {[ "users" := users_columns;
     "posts" := ["post_id"; "user_id"; "title"; "content"; "category";
                 "created_at"; "updated_at"];
     "comments" := comments_columns ]}.

(** ** The pages *)

(** The handlers of the pages take the contents of the entries as they
    were typed. A string stands for the sequence of its characters, one
    [ascii] for each (character codes below 256). *)

(** [str.isspace] on one character: tab to carriage return, the four
    separators 28 to 31, the space, and the codes 133 and 160. *)
Definition isspace (c : ascii) : bool :=
  let n := N_of_ascii c in
  ((9 <=? n) && (n <=? 13) || (28 <=? n) && (n <=? 32) ||
   (n =? 133) || (n =? 160))%N.

Fixpoint lstrip (s : string) : string :=
  match s with
  | EmptyString => EmptyString
  | String c rest => if isspace c then lstrip rest else s
  end.

Fixpoint rstrip (s : string) : string :=
  match s with
  | EmptyString => EmptyString
  | String c rest =>
      match rstrip rest with
      | EmptyString => if isspace c then EmptyString else String c EmptyString
      | r => String c r
      end
  end.

(** [str.strip()] *)
Definition strip (s : string) : string := rstrip (lstrip s).

(** A dialog of [messagebox]. *)
Inductive dialog : Type :=
| showerror (title message : string)
| showinfo (title message : string).

Section Forms.
Variable sha256_hexdigest : string → string.

(** [LoginPage.login]: the dialog shown and the controller afterwards. *)
Definition login_clicked (fault : option exn) (st : Store) (app : BlogApp)
    (username_entry password_entry : string) : dialog * Exc BlogApp :=
  let username := strip username_entry in
  let password := strip password_entry in
  if bool_decide (username = "" ∨ password = "") then
    (showerror "Error" "Please fill all fields!", Ok app)
  else
    match login_user sha256_hexdigest fault st username password with
    | (true, LoginRow uid fn) =>
        (showinfo "Success" ("Welcome, " +:+ fn +:+ "!"),
         show_frame fault st (set_user app uid fn) HomePage)
    | _ => (showerror "Error" "Invalid username or password!", Ok app)
    end.

(** [SignupPage.signup]: the dialog shown, the store and the controller
    afterwards. The password and its confirmation are taken as typed. *)
Definition signup_clicked (fault : option exn) (now : Z) (st : Store)
    (app : BlogApp)
    (fullname_entry email_entry username_entry password confirm : string)
    : dialog * Store * Exc BlogApp :=
  let fullname := strip fullname_entry in
  let email := strip email_entry in
  let username := strip username_entry in
  if bool_decide (fullname = "" ∨ email = "" ∨ username = "" ∨
                  password = "" ∨ confirm = "") then
    (showerror "Error" "Please fill all fields!", st, Ok app)
  else if bool_decide (password ≠ confirm) then
    (showerror "Error" "Passwords do not match!", st, Ok app)
  else if bool_decide (String.length password < 6)%nat then
    (showerror "Error" "Password must be at least 6 characters!", st, Ok app)
  else
    match register_user sha256_hexdigest fault now st
            username email password fullname with
    | ((true, message), st') =>
        (showinfo "Success" message, st', show_frame fault st' app LoginPage)
    | ((false, message), st') => (showerror "Error" message, st', Ok app)
    end.
End Forms.

(** [f"{result}"] for the second component of [create_post]'s result. *)
Definition format (result : create_payload) : string :=
  match result with
  | CreatedId pid => pretty pid
  | CreateError msg => msg
  end.

(** [BlogPage.create_post]: the dialog, the store, the disk, the
    controller and the page's [image_path] afterwards. *)
Definition post_clicked (fault : option exn) (now : Z) (st : Store) (fs : FS)
    (app : BlogApp) (image : option string)
    (title_entry category_var content_text : string)
    : dialog * Store * FS * Exc BlogApp * option string :=
  match current_user app with
  | None => (showerror "Error" "Please log in first!", st, fs, Ok app, image)
  | Some (uid, _) =>
      let t := strip title_entry in
      let cat := strip category_var in
      let c := strip content_text in
      if bool_decide (t = "" ∨ cat = "" ∨ c = "") then
        (showerror "Error" "Please fill all fields!", st, fs, Ok app, image)
      else
        match create_post fault now st fs uid t c cat image with
        | ((true, _), st', fs') =>
            (showinfo "Success" "Post created successfully!", st', fs',
             show_frame fault st' app HomePage, None)
        | ((false, result), st', fs') =>
            (showerror "Error" ("Failed to create post: " +:+ format result),
             st', fs', Ok app, image)
        end
  end.

(** The controller as [BlogApp.__init__] leaves it on a database without
    posts. *)
Definition start_app : BlogApp :=
  {| current_user := None;
     stacking := tkraise LoginPage (foldl (λ z p, p :: z) [] frame_classes);
     home_posts := [] |}.

(** *** The "My Posts" page *)

(** A value in a row tuple. *)
Inductive pyval : Type :=
| PyInt (z : Z)
| PyStr (s : string)
| PyNone.

(** A row of [get_user_posts] as the tuple [fetchall] returns: the six
    selected columns. *)
Definition user_post_tuple (r : user_post) : list pyval :=
  [PyInt (up_post_id r); PyStr (up_title r); PyStr (up_content r);
   PyStr (up_category r); PyInt (up_created_at r);
   from_option PyStr PyNone (up_image_path r)].

(** An exception that leaves a handler: one of the store, or a
    [ValueError] of the interpreter. *)
Inductive page_exn : Type :=
| StoreFailure (e : exn)
| ValueError (msg : string).

(** [post_id, title, content, category, created_at = post] *)
Definition unpack5 (row : list pyval)
    : page_exn + (pyval * pyval * pyval * pyval * pyval) :=
  match row with
  | [a; b; c; d; e] => inr (a, b, c, d, e)
  | _ =>
      inl (ValueError
             (if bool_decide (5 < length row)%nat
              then "too many values to unpack (expected 5)"
              else "not enough values to unpack (expected 5, got " +:+
                   pretty (length row) +:+ ")"))
  end.

(** What the posts frame of the page holds. *)
Inductive my_posts_widget : Type :=
| PleaseLogIn
| NoPostsYet
| OwnPost (post_id title category created_at : pyval).

(** The loop of [MyPostsPage.load_posts]: one widget per row, until an
    iteration raises. *)
Fixpoint my_posts_widgets (rows : list user_post)
    : list my_posts_widget * option page_exn :=
  match rows with
  | [] => ([], None)
  | post :: rest =>
      match unpack5 (user_post_tuple post) with
      | inl e => ([], Some e)
      | inr (post_id, title, _, category, created_at) =>
          let '(ws, e) := my_posts_widgets rest in
          (OwnPost post_id title category created_at :: ws, e)
      end
  end.

(** [MyPostsPage.load_posts]: the widgets of the frame afterwards, and the
    exception that left the method, if one did. *)
Definition my_posts_load (fault : option exn) (st : Store)
    (user : option (Z * string)) : list my_posts_widget * option page_exn :=
  match user with
  | None => ([PleaseLogIn], None)
  | Some (uid, _) =>
      match get_user_posts fault st uid with
      | Raise e => ([], Some (StoreFailure e))
      | Ok [] => ([NoPostsYet], None)
      | Ok rows => my_posts_widgets rows
      end
  end.

(** *** The home page *)

(** The preview of a post's content in [HomePage.create_post_widget]:
    [content[:200] + "..." if len(content) > 200 else content]. *)
Definition preview (content : string) : string :=
  if bool_decide (200 < String.length content)%nat
  then String.substring 0 200 content +:+ "..."
  else content.

(** *** The tree page *)

(** The post [on_treeview_double_click] opens for an item with the given
    text under a category: the first row of [get_all_posts] with that
    title. *)
Definition double_click_opens (rows : list post_listing) (text : string)
    : option Z :=
  pl_post_id <$> head (filter (λ row, pl_title row = text) rows).

(** *** The gallery *)

(** [GalleryPage.load_gallery]: the lines of the listbox and
    [self.post_data]. *)
Definition gallery_rows (fs : FS) (rows : list post_listing)
    : list (post_listing * string) :=
  omap (λ row,
          p ← truthy (pl_image_path row);
          if path_exists fs p then Some (row, p) else None)
       rows.

Definition load_gallery (fs : FS) (rows : list post_listing)
    : list string * list (Z * string * string) :=
  let shown := gallery_rows fs rows in
  let listbox :=
    (λ rp : post_listing * string,
       pl_title rp.1 +:+ " - by " +:+ pl_username rp.1) <$> shown in
  let post_data :=
    (λ rp : post_listing * string,
       (pl_post_id rp.1, pl_title rp.1, rp.2)) <$> shown in
  (if bool_decide (listbox = []) then ["No posts with images yet!"]
   else listbox,
   post_data).

(** [GalleryPage.view_selected_post] with the line [index] selected: the
    post it opens, if any. *)
Definition view_selected_post (post_data : list (Z * string * string))
    (index : nat) : option Z :=
  if bool_decide (0 < length post_data)%nat then
    if bool_decide (index < length post_data)%nat then
      (λ d : Z * string * string, d.1.1) <$> post_data !! index
    else None
  else None.

(** *** The application as the user drives it *)

(** What is on screen besides the controller: the widgets of the
    "My Posts" frame, the post id of the post page ([None] until a post
    is opened), whether the post page shows the comment box, and the
    [post_data] of the gallery. The store is taken to work ([fault] is
    [None] throughout). *)
Record Screen : Type := mk_screen {
  scr_store : Store;
  scr_fs : FS;
  scr_app : BlogApp;
  scr_my_posts : list my_posts_widget;
  scr_post_id : option Z;
  scr_comment_box : bool;
  scr_gallery : list (Z * string * string)
}.

(** [PostDetailPage.load_post] builds the comment box when the post is
    found and a user is logged in. *)
Definition comment_box_after_load (st : Store) (user : option (Z * string))
    (pid : Z) : bool :=
  bool_decide (is_Some (sql_select_post_details st pid)) &&
  bool_decide (is_Some user).

(** What the user can do: the buttons, menu entries and bindings of the
    pages, with what was typed or selected. *)
Inductive event : Type :=
| LoginClicked (username_entry password_entry : string)
| SignupClicked (fullname_entry email_entry username_entry
                 password confirm : string)
| LogoutClicked
| Navigate (page : Page)
| PostClicked (image : option string)
              (title_entry category_var content_text : string)
| ReadMoreClicked (pid : Z)
| GalleryRefreshed
| GalleryViewClicked (index : nat)
| TreeDoubleClicked (text : string)
| CommentClicked (comment_entry : string)
| DeleteClicked (pid : Z) (confirmed : bool).

(** Whether a widget of "My Posts" is the one of the given post, with
    its delete button. *)
Definition is_own_post (pid : Z) (w : my_posts_widget) : bool :=
  match w with
  | OwnPost (PyInt p) _ _ _ => bool_decide (p = pid)
  | _ => false
  end.

Definition with_app (s : Screen) (r : Exc BlogApp) : Screen :=
  match r with
  | Ok app' =>
      mk_screen (scr_store s) (scr_fs s) app' (scr_my_posts s)
                (scr_post_id s) (scr_comment_box s) (scr_gallery s)
  | Raise _ => s
  end.

(** [PostDetailPage.set_post_id] followed by [show_frame(PostDetailPage)],
    as the home page, the gallery and the tree do to open a post. *)
Definition open_post (s : Screen) (pid : Z) : Screen :=
  with_app
    (mk_screen (scr_store s) (scr_fs s) (scr_app s) (scr_my_posts s)
               (Some pid)
               (comment_box_after_load (scr_store s)
                  (current_user (scr_app s)) pid)
               (scr_gallery s))
    (show_frame None (scr_store s) (scr_app s) PostDetailPage).

Section Screens.
Variable sha256_hexdigest : string → string.

(** The screen after one event at time [now]. An event whose widget is
    not there leaves the screen as it is. *)
Definition press (now : Z) (s : Screen) (ev : event) : Screen :=
  let st := scr_store s in
  let app := scr_app s in
  match ev with
  | LoginClicked ue pe =>
      with_app s (login_clicked sha256_hexdigest None st app ue pe).2
  | SignupClicked fe ee ue pw cf =>
      let r := signup_clicked sha256_hexdigest None now st app
                 fe ee ue pw cf in
      with_app
        (mk_screen r.1.2 (scr_fs s) app (scr_my_posts s) (scr_post_id s)
                   (scr_comment_box s) (scr_gallery s))
        r.2
  | LogoutClicked => with_app s (logout None st app)
  | Navigate page => with_app s (show_frame None st app page)
  | PostClicked image te cv ct =>
      let r := post_clicked None now st (scr_fs s) app image te cv ct in
      with_app
        (mk_screen r.1.1.1.2 r.1.1.2 app (scr_my_posts s) (scr_post_id s)
                   (scr_comment_box s) (scr_gallery s))
        r.1.2
  | ReadMoreClicked pid =>
      if bool_decide (pid ∈ pl_post_id <$> home_posts app)
      then open_post s pid else s
  | GalleryRefreshed =>
      mk_screen st (scr_fs s) app (scr_my_posts s) (scr_post_id s)
                (scr_comment_box s)
                (load_gallery (scr_fs s) (sql_select_all_posts st)).2
  | GalleryViewClicked index =>
      match view_selected_post (scr_gallery s) index with
      | Some pid => open_post s pid
      | None => s
      end
  | TreeDoubleClicked text =>
      match double_click_opens (sql_select_all_posts st) text with
      | Some pid => open_post s pid
      | None => s
      end
  | CommentClicked entry =>
      match scr_comment_box s, scr_post_id s, current_user app with
      | true, Some pid, Some (uid, _) =>
          if bool_decide (strip entry = "") then s
          else
            let st' := (add_comment None now st pid uid (strip entry)).2 in
            mk_screen st' (scr_fs s) app (scr_my_posts s) (Some pid)
                      (comment_box_after_load st' (current_user app) pid)
                      (scr_gallery s)
      | _, _, _ => s
      end
  | DeleteClicked pid confirmed =>
      if existsb (is_own_post pid) (scr_my_posts s) && confirmed
      then
        let st' := (delete_post None st pid).2 in
        mk_screen st' (scr_fs s) app
                  (my_posts_load None st' (current_user app)).1
                  (scr_post_id s) (scr_comment_box s) (scr_gallery s)
      else s
  end.

Definition presses (s : Screen) (evs : list (Z * event)) : Screen :=
  foldl (λ s ev, press ev.1 s ev.2) s evs.
End Screens.

(** The screen when the application has started on a database: the
    controller of [BlogApp.__init__], "My Posts" built without a user, no
    post opened, the gallery loaded. *)
Definition start_screen (st : Store) (fs : FS) : Screen :=
  mk_screen st fs
    {| current_user := None;
       stacking := tkraise LoginPage (foldl (λ z p, p :: z) [] frame_classes);
       home_posts := sql_select_all_posts st |}
    (my_posts_load None st None).1
    None false
    (load_gallery fs (sql_select_all_posts st)).2.

(** What holds of every screen the user can reach. *)
Definition screen_invariant (s : Screen) : Prop :=
  referential_integrity (scr_store s) ∧
  (∀ uid name, current_user (scr_app s) = Some (uid, name) →
               is_Some (users (scr_store s) !! uid)) ∧
  (∀ pid, scr_post_id s = Some pid → scr_comment_box s = true →
          is_Some (posts (scr_store s) !! pid)) ∧
  (∀ pid t c d, OwnPost pid t c d ∉ scr_my_posts s).

(** *** The tree of posts by category *)

(** What [load_treeview] keeps of a post: [(post_id, title, username,
    created_at)]; the tree shows the first ten characters of the time,
    which is kept whole here. *)
Definition tree_entry : Type := Z * string * string * Z.

Definition tree_entry_of (row : post_listing) : tree_entry :=
  (pl_post_id row, pl_title row, pl_username row, pl_created_at row).

(** [if category not in categories: categories[category] = []] followed
    by [categories[category].append(...)], on a dictionary kept in
    insertion order. *)
Fixpoint categories_append (cat : string) (e : tree_entry)
    (cats : list (string * list tree_entry))
    : list (string * list tree_entry) :=
  match cats with
  | [] => [(cat, [e])]
  | (c, es) :: rest =>
      if decide (c = cat) then (c, es ++ [e])%list :: rest
      else (c, es) :: categories_append cat e rest
  end.

Definition group_by_category (rows : list post_listing)
    : list (string * list tree_entry) :=
  foldl (λ cats row,
           categories_append (pl_category row) (tree_entry_of row) cats)
        [] rows.

(** [sorted(categories.items())]: the keys are distinct, so the items are
    ordered by category, character code by character code. *)
Fixpoint insert_category (x : string * list tree_entry)
    (l : list (string * list tree_entry))
    : list (string * list tree_entry) :=
  match l with
  | [] => [x]
  | y :: l' =>
      if String.leb x.1 y.1 then x :: y :: l'
      else y :: insert_category x l'
  end.

Definition sorted_items (cats : list (string * list tree_entry))
    : list (string * list tree_entry) :=
  foldr insert_category [] cats.

(** An item at the top of the tree: a category with the posts under it
    (text, then the values username and time), or the line shown when
    there is no post. *)
Inductive tree_item : Type :=
| CategoryItem (text : string) (children : list (string * string * Z))
| PlaceholderItem (text : string).

Definition tree_child (e : tree_entry) : string * string * Z :=
  (e.1.1.2, e.1.2, e.2).

(** [PostsTreeviewPage.load_treeview] on the rows of [get_all_posts]. *)
Definition load_treeview (rows : list post_listing) : list tree_item :=
  let categories := group_by_category rows in
  if bool_decide (categories = []) then
    [PlaceholderItem "No posts available"]
  else
    (λ item : string * list tree_entry,
       CategoryItem item.1 (tree_child <$> item.2))
      <$> sorted_items categories.

(** The rows of a category, in the order of the list. *)
Definition rows_of_category (cat : string) (rows : list post_listing)
    : list post_listing :=
  filter (λ row, pl_category row = cat) rows.

Definition item_text (item : tree_item) : string :=
  match item with
  | CategoryItem text _ => text
  | PlaceholderItem text => text
  end.

(** * Properties *)

(** ** [ORDER BY ... DESC] *)

Section order_by_facts.
Context {A : Type} (key : A → Z).

Lemma insert_desc_perm (x : A) (l : list A) :
  insert_desc key x l ≡ₚ x :: l.
Proof.
  induction l as [|y l IH]; simpl; [done|].
  case_bool_decide; [done|].
  rewrite IH. apply Permutation_swap.
Qed.

Lemma order_by_desc_perm (l : list A) : order_by_desc key l ≡ₚ l.
Proof.
  induction l as [|x l IH]; simpl; [done|].
  by rewrite insert_desc_perm, IH.
Qed.

Lemma insert_desc_sorted (x : A) (l : list A) :
  newest_first key l → newest_first key (insert_desc key x l).
Proof.
  unfold newest_first. induction l as [|y l IH]; simpl; intros Hs.
  - repeat constructor.
  - apply StronglySorted_cons in Hs as [Hy Hl].
    case_bool_decide as Hle.
    + apply StronglySorted_cons. split.
      * constructor; [done|].
        eapply Forall_impl; [exact Hy|]. simpl. intros; lia.
      * apply StronglySorted_cons. by split.
    + apply StronglySorted_cons. split; [|by apply IH].
      rewrite insert_desc_perm. constructor; [simpl; lia|done].
Qed.

Lemma order_by_desc_sorted (l : list A) :
  newest_first key (order_by_desc key l).
Proof.
  induction l as [|x l IH]; simpl; [constructor|].
  by apply insert_desc_sorted.
Qed.

Lemma elem_of_order_by_desc (x : A) (l : list A) :
  x ∈ order_by_desc key l ↔ x ∈ l.
Proof. by rewrite order_by_desc_perm. Qed.
End order_by_facts.

(** ** Row ids *)

Lemma max_rowid_ge {A : Type} (t : gmap Z A) (i : Z) (x : A) :
  t !! i = Some x → i ≤ max_rowid t.
Proof.
  intros Hi. apply elem_of_map_to_list in Hi.
  unfold max_rowid.
  induction (map_to_list t) as [|[j y] l IH].
  - by apply elem_of_nil in Hi.
  - rewrite fmap_cons. cbn [foldr fst].
    apply elem_of_cons in Hi as [Heq|Hin].
    + injection Heq as -> ->. lia.
    + specialize (IH Hin). lia.
Qed.

Lemma next_rowid_fresh {A : Type} (seq : Z) (t : gmap Z A) :
  t !! next_rowid seq t = None.
Proof.
  destruct (t !! next_rowid seq t) as [x|] eqn:Hx; [|done].
  apply max_rowid_ge in Hx. unfold next_rowid in Hx. lia.
Qed.

(** ** The scenarios of the specification *)

Example scenario_register_login :
  login_user demo_digest None store_alice "alice" "secret1" =
    (true, LoginRow 1 "Alice A") ∧
  login_user demo_digest None store_alice "alice" "wrong" =
    (false, LoginNone).
Proof. vm_compute. done. Qed.

Example scenario_post_comment :
  get_all_posts None store_alice_post =
    Ok [mk_listing 1 "Hi" "Body text" "Technology" 101 "alice" "Alice A"
          None] ∧
  get_post_comments None store_alice_comment 1 =
    Ok [mk_comment_listing 1 "Nice!" "alice" 102].
Proof. vm_compute. done. Qed.

Example scenario_newest_first :
  let st := (create_post None 300 store_alice_post no_files
               1 "Second" "More" "Travel" None).1.2 in
  pl_title <$> sql_select_all_posts st = ["Second"; "Hi"] ∧
  up_title <$> sql_select_user_posts st 1 = ["Second"; "Hi"] ∧
  sql_select_user_posts st 2 = [].
Proof. vm_compute. done. Qed.

(** ** [update_post] and [delete_post] *)

Lemma update_post_ok (now : Z) (st : Store) (pid : Z) (t c cat : string) :
  update_post None now st pid t c cat =
    ((true, "Post updated successfully!"), sql_update_post now st pid t c cat).
Proof. reflexivity. Qed.

Lemma update_post_fault (e : exn) (now : Z) (st : Store) (pid : Z)
    (t c cat : string) :
  update_post (Some e) now st pid t c cat = ((false, str e), st).
Proof. reflexivity. Qed.

Lemma delete_post_ok (st : Store) (pid : Z) :
  delete_post None st pid =
    ((true, "Post deleted successfully!"),
     sql_delete_post {| foreign_keys := false |} st pid).
Proof. reflexivity. Qed.

Lemma delete_post_fault (e : exn) (st : Store) (pid : Z) :
  delete_post (Some e) st pid = ((false, str e), st).
Proof. reflexivity. Qed.


(** C9: [update_post] touches nothing but the title, content, category and
    last-updated time of the post with the given id. The users, the
    comments and the id counters are the same afterwards, the same post ids
    exist, every other post is the same row, and the row under the given id
    keeps its owner, image reference and creation time; when the update
    goes through, that row is the old one with the three texts and the
    update time replaced. *)
Theorem update_post_frame (fault : option exn) (now : Z) (st : Store)
    (pid : Z) (t c cat : string) :
  let st' := (update_post fault now st pid t c cat).2 in
  users st' = users st ∧
  comments st' = comments st ∧
  (seq_users st', seq_posts st', seq_comments st') =
    (seq_users st, seq_posts st, seq_comments st) ∧
  dom (posts st') = dom (posts st) ∧
  (∀ pid', pid' ≠ pid → posts st' !! pid' = posts st !! pid') ∧
  (∀ p', posts st' !! pid = Some p' →
     ∃ p, posts st !! pid = Some p ∧
          post_user_id p' = post_user_id p ∧
          image_path p' = image_path p ∧
          created_at p' = created_at p) ∧
  (fault = None →
     posts st' !! pid = set_post_text t c cat now <$> posts st !! pid).
Proof.
  destruct fault as [e|].
  - rewrite update_post_fault. simpl.
    repeat split; try done. intros p' Hp'. by exists p'.
  - rewrite update_post_ok. simpl.
    split; [done|]. split; [done|]. split; [done|].
    split; [apply dom_alter_L|].
    split; [by intros pid' Hne; apply lookup_alter_ne|].
    split.
    + intros p' Hp'. rewrite lookup_alter_eq in Hp'.
      destruct (posts st !! pid) as [p|]; [|done].
      injection Hp' as <-. by exists p.
    + intros _. apply lookup_alter_eq.
Qed.



Lemma delete_post_then_details (st : Store) (pid : Z) :
  get_post_details None (delete_post None st pid).2 pid = Ok None.
Proof.
  rewrite delete_post_ok. unfold get_post_details, sql_select_post_details.
  simpl. by rewrite lookup_delete_eq.
Qed.

Lemma delete_post_other_posts (fault : option exn) (st : Store)
    (pid pid' : Z) :
  pid' ≠ pid →
  posts (delete_post fault st pid).2 !! pid' = posts st !! pid'.
Proof.
  intros Hne. destruct fault as [e|].
  - by rewrite delete_post_fault.
  - rewrite delete_post_ok. simpl. by apply lookup_delete_ne.
Qed.

Lemma delete_post_users (fault : option exn) (st : Store) (pid : Z) :
  users (delete_post fault st pid).2 = users st.
Proof. by destruct fault. Qed.

(** What [delete_post] does to the comments on the connection it opens:
    nothing at all. *)
Lemma delete_post_comments (fault : option exn) (st : Store) (pid : Z) :
  comments (delete_post fault st pid).2 = comments st.
Proof. by destruct fault. Qed.

(** The same statement on a connection that enforces foreign keys: the
    comments of a deleted post go with it, the others stay. *)
Lemma sql_delete_post_cascade (st : Store) (pid cid : Z)
    (p : post_row) (c : comment_row) :
  posts st !! pid = Some p →
  comments (sql_delete_post {| foreign_keys := true |} st pid) !! cid
    = Some c ↔
  comments st !! cid = Some c ∧ comment_post_id c ≠ pid.
Proof.
  intros Hp. simpl. rewrite Hp. rewrite bool_decide_true by eauto.
  by rewrite map_lookup_filter_Some.
Qed.

(** C1 (the failing input): on the store holding one user, her post 1 and
    one comment on it, [delete_post 1] answers success, [get_post_details]
    no longer finds the post, and the comment is still in the table and is
    still listed by [get_post_comments]. *)
Theorem delete_post_keeps_comment :
  let r := delete_post None store_alice_comment 1 in
  comments store_alice_comment !! 1 = Some (mk_comment 1 1 "Nice!" 102) ∧
  r.1 = (true, "Post deleted successfully!") ∧
  get_post_details None r.2 1 = Ok None ∧
  comments r.2 !! 1 = Some (mk_comment 1 1 "Nice!" 102) ∧
  get_post_comments None r.2 1 =
    Ok [mk_comment_listing 1 "Nice!" "alice" 102].
Proof. vm_compute. done. Qed.

(** ** [register_user] and [login_user] *)

Lemma username_taken_spec (st : Store) (u : string) :
  username_taken st u = true ↔
  ∃ i r, users st !! i = Some r ∧ username r = u.
Proof.
  unfold username_taken. rewrite bool_decide_eq_true, Exists_exists. split.
  - intros [[i r] [Hin Hu]]. apply elem_of_map_to_list in Hin. eauto.
  - intros (i & r & Hin & Hu). exists (i, r).
    by rewrite elem_of_map_to_list.
Qed.

Lemma email_taken_spec (st : Store) (e : string) :
  email_taken st e = true ↔
  ∃ i r, users st !! i = Some r ∧ email r = e.
Proof.
  unfold email_taken. rewrite bool_decide_eq_true, Exists_exists. split.
  - intros [[i r] [Hin He]]. apply elem_of_map_to_list in Hin. eauto.
  - intros (i & r & Hin & He). exists (i, r).
    by rewrite elem_of_map_to_list.
Qed.

Lemma sql_select_login_Some (st : Store) (u hashed : string) (uid : Z)
    (fn : string) :
  sql_select_login st u hashed = Some (uid, fn) →
  ∃ r, users st !! uid = Some r ∧ username r = u ∧
       password r = hashed ∧ full_name r = fn.
Proof.
  unfold sql_select_login. intros Hhd.
  apply head_Some_elem_of, list_elem_of_omap in Hhd as ([i r] & Hin & Hf).
  apply elem_of_map_to_list in Hin. simpl in Hf.
  case_decide as Hm; [|done]. injection Hf as -> <-.
  exists r. by destruct Hm.
Qed.

Lemma sql_select_login_is_Some (st : Store) (u hashed : string) (uid : Z)
    (r : user_row) :
  users st !! uid = Some r → username r = u → password r = hashed →
  is_Some (sql_select_login st u hashed).
Proof.
  intros Hr Hu Hp. unfold sql_select_login.
  apply head_is_Some. intros Hnil.
  assert ((uid, full_name r) ∈ @nil (Z * string)) as Hin;
    [|by apply elem_of_nil in Hin].
  rewrite <- Hnil. apply list_elem_of_omap. exists (uid, r).
  split; [by apply elem_of_map_to_list|].
  simpl. by rewrite decide_True.
Qed.

Section Accounts.
Variable sha256_hexdigest : string → string.


(** C6: when the store holds a user, registering with that user's username
    and another email, or with that user's email and another username,
    answers [(False, "Username or email already exists!")] and the store
    is the same afterwards; no user row is added. *)
Theorem register_user_duplicate (now : Z) (st : Store) (i : Z)
    (r : user_row) (u e pw fn : string) :
  users st !! i = Some r →
  (username r = u ∧ email r ≠ e) ∨ (email r = e ∧ username r ≠ u) →
  register_user sha256_hexdigest None now st u e pw fn =
    ((false, "Username or email already exists!"), st).
Proof.
  intros Hr Hdup. unfold register_user, sql_insert_user. simpl.
  destruct (username_taken st u) eqn:Hu; [done|].
  destruct (email_taken st e) eqn:He; [done|].
  exfalso. destruct Hdup as [[Hname _]|[Hmail _]].
  - apply not_true_iff_false in Hu. apply Hu, username_taken_spec. eauto.
  - apply not_true_iff_false in He. apply He, email_taken_spec. eauto.
Qed.


Lemma login_user_ok (st : Store) (u pw : string) :
  login_user sha256_hexdigest None st u pw =
    match sql_select_login st u (hash_password sha256_hexdigest pw) with
    | Some (uid, fn) => (true, LoginRow uid fn)
    | None => (false, LoginNone)
    end.
Proof. reflexivity. Qed.

End Accounts.

Lemma register_user_duplicate_witness :
  users store_alice !! 1 =
    Some (mk_user "alice" "a@x.com" (demo_digest "secret1") "Alice A" 100) ∧
  register_user demo_digest None 200 store_alice
    "alice" "other@x.com" "hunter22" "Not Alice" =
    ((false, "Username or email already exists!"), store_alice).
Proof.
  split; [reflexivity|].
  apply (register_user_duplicate demo_digest 200 store_alice 1
           (mk_user "alice" "a@x.com" (demo_digest "secret1") "Alice A" 100)).
  - reflexivity.
  - left. split; [reflexivity|]. discriminate.
Defined.

(** ** [get_all_posts] and [get_user_posts] *)

Lemma length_omap_total {A B : Type} (f : A → option B) (l : list A) :
  Forall (λ x, is_Some (f x)) l → length (omap f l) = length l.
Proof.
  induction 1 as [|x l [y Hy] _ IH]; simpl; [done|].
  rewrite Hy. simpl. f_equal. exact IH.
Qed.

Lemma join_post_user_owner (st : Store) (pid : Z) (p : post_row)
    (u : user_row) :
  users st !! post_user_id p = Some u →
  join_post_user st (pid, p) = Some (listing_of pid p u).
Proof. intros Hu. unfold join_post_user. simpl. by rewrite Hu. Qed.

(** C3 (as stated, refuted): a post whose [user_id] has no user row is in
    the posts table and [get_all_posts] does not return it. *)
Lemma get_all_posts_drops_ownerless :
  posts store_orphan_post !! 1 =
    Some (mk_post 42 "Ghost" "Body" "News" None 60 60) ∧
  get_all_posts None store_orphan_post = Ok [].
Proof. vm_compute. done. Qed.

(** C3 (amended): in a store where every post's [user_id] has a user row,
    [get_all_posts] returns one row for every post, carrying the post's
    fields and its owner's names, and no other row, with creation times
    never increasing along the list. In every store, [get_user_posts u]
    returns the rows of exactly the posts whose [user_id] is [u], each
    once, with creation times never increasing along the list. *)
Theorem posts_listed_newest_first (st : Store) (uid : Z) :
  ∃ all mine,
    get_all_posts None st = Ok all ∧
    get_user_posts None st uid = Ok mine ∧
    (posts_have_owner st →
       (∀ pid p, posts st !! pid = Some p →
          ∃ u, users st !! post_user_id p = Some u ∧
               listing_of pid p u ∈ all) ∧
       length all = size (posts st)) ∧
    newest_first pl_created_at all ∧
    (∀ row, row ∈ mine ↔
       ∃ pid p, posts st !! pid = Some p ∧ post_user_id p = uid ∧
                row = user_post_of pid p) ∧
    NoDup (up_post_id <$> mine) ∧
    newest_first up_created_at mine.
Proof.
  exists (sql_select_all_posts st), (sql_select_user_posts st uid).
  split; [done|]. split; [done|].
  split; [|split; [|split; [|split]]].
  - intros Hown. split.
    + intros pid p Hp. destruct (Hown pid p Hp) as [u Hu].
      exists u. split; [done|].
      apply elem_of_order_by_desc, list_elem_of_omap.
      exists (pid, p). split; [by apply elem_of_map_to_list|].
      by apply join_post_user_owner.
    + unfold sql_select_all_posts.
      rewrite (Permutation_length (order_by_desc_perm _ _)).
      rewrite length_omap_total; [apply length_map_to_list|].
      apply Forall_forall. intros [pid p] Hin.
      apply elem_of_map_to_list in Hin.
      destruct (Hown pid p Hin) as [u Hu].
      rewrite (join_post_user_owner st pid p u Hu). eauto.
  - apply order_by_desc_sorted.
  - intros row. unfold sql_select_user_posts.
    rewrite elem_of_order_by_desc, list_elem_of_fmap. split.
    + intros ([pid p] & -> & Hin).
      apply list_elem_of_filter in Hin as [Hu Hin].
      apply elem_of_map_to_list in Hin. by exists pid, p.
    + intros (pid & p & Hp & Hu & ->). exists (pid, p).
      split; [done|]. apply list_elem_of_filter.
      split; [done|]. by apply elem_of_map_to_list.
  - unfold sql_select_user_posts.
    rewrite order_by_desc_perm, <- list_fmap_compose.
    eapply sublist_NoDup; [apply (NoDup_fst_map_to_list (posts st))|].
    apply fmap_sublist, sublist_filter.
  - apply order_by_desc_sorted.
Qed.

Lemma posts_listed_newest_first_witness :
  posts_have_owner store_alice_post ∧
  ∃ all, get_all_posts None store_alice_post = Ok all ∧
         length all = 1%nat ∧
         listing_of 1 (mk_post 1 "Hi" "Body text" "Technology" None 101 101)
           (mk_user "alice" "a@x.com" (demo_digest "secret1") "Alice A" 100)
         ∈ all.
Proof.
  assert (Hown : posts_have_owner store_alice_post).
  { unfold posts_have_owner. apply (bool_decide_unpack _).
    vm_compute. exact I. }
  split; [exact Hown|].
  destruct (posts_listed_newest_first store_alice_post 1)
    as (all & mine & Hall & _ & Hposts & _).
  exists all. split; [exact Hall|].
  destruct (Hposts Hown) as [Hrows Hlen]. split.
  - rewrite Hlen. vm_compute. reflexivity.
  - destruct (Hrows 1 (mk_post 1 "Hi" "Body text" "Technology" None 101 101))
      as (u & Hu & Hin); [vm_compute; reflexivity|].
    vm_compute in Hu. injection Hu as <-. exact Hin.
Defined.

(** ** Persistence failures *)

Lemma create_post_fault (e : exn) (now : Z) (st : Store) (fs : FS)
    (uid : Z) (t c cat : string) (image : option string) :
  ∃ msg fs',
    create_post (Some e) now st fs uid t c cat image =
      ((false, CreateError msg), st, fs').
Proof.
  unfold create_post.
  destruct (mkdir_exist_ok fs img_dir) as [fs1|e1]; [|by eauto].
  destruct (truthy image) as [p|]; [|by simpl; eauto].
  destruct (path_exists fs1 p); [|by simpl; eauto].
  destruct (copy2 fs1 p _) as [fs2|e2]; simpl; by eauto.
Qed.

(** C4 (as stated, refuted): when the database cannot be opened, each of
    the four queries raises; nothing inside them catches the exception. *)
Lemma queries_raise_on_failure :
  get_all_posts (Some db_unavailable) store_alice_comment =
    Raise db_unavailable ∧
  get_user_posts (Some db_unavailable) store_alice_comment 1 =
    Raise db_unavailable ∧
  get_post_details (Some db_unavailable) store_alice_comment 1 =
    Raise db_unavailable ∧
  get_post_comments (Some db_unavailable) store_alice_comment 1 =
    Raise db_unavailable.
Proof. repeat split. Qed.

(** C4 (amended): a persistence failure [e] inside [register_user],
    [login_user], [create_post], [update_post], [delete_post] or
    [add_comment] is caught there: the method returns [False] with a
    message and the store is the same afterwards. The four queries
    [get_all_posts], [get_user_posts], [get_post_details] and
    [get_post_comments] return the bare rows and let the failure leave as
    an exception. *)
Theorem persistence_failure_boundary (sha256_hexdigest : string → string)
    (e : exn) (now : Z) (st : Store) (fs : FS) (pid uid : Z)
    (u em pw fn t c cat txt : string) (image : option string) :
  register_user sha256_hexdigest (Some e) now st u em pw fn =
    ((false,
      match e with
      | IntegrityError _ => "Username or email already exists!"
      | _ => "Error: " +:+ str e
      end), st) ∧
  login_user sha256_hexdigest (Some e) st u pw =
    (false, LoginError (str e)) ∧
  (∃ msg fs', create_post (Some e) now st fs uid t c cat image =
                ((false, CreateError msg), st, fs')) ∧
  update_post (Some e) now st pid t c cat = ((false, str e), st) ∧
  delete_post (Some e) st pid = ((false, str e), st) ∧
  add_comment (Some e) now st pid uid txt = ((false, str e), st) ∧
  get_all_posts (Some e) st = Raise e ∧
  get_user_posts (Some e) st uid = Raise e ∧
  get_post_details (Some e) st pid = Raise e ∧
  get_post_comments (Some e) st pid = Raise e.
Proof.
  split; [by destruct e|]. split; [done|].
  split; [apply create_post_fault|].
  by repeat split.
Qed.

(** ** [create_post] and the image copy *)

Lemma mkdir_exist_ok_Ok (fs fs1 : FS) (d : string) :
  mkdir_exist_ok fs d = Ok fs1 →
  d ∈ dirs fs1 ∧ files fs1 = files fs ∧ read_only fs1 = read_only fs ∧
  dirs fs1 = {[d]} ∪ dirs fs.
Proof.
  unfold mkdir_exist_ok.
  destruct (decide (d ∈ dirs fs)) as [Hd|Hd].
  - rewrite bool_decide_true by done.
    intros [= <-]. repeat split; [done|].
    symmetry. apply subseteq_union_1_L. by apply singleton_subseteq_l.
  - rewrite bool_decide_false by done.
    destruct (bool_decide (is_Some (files fs !! d))); [done|].
    destruct (read_only fs); [done|].
    intros [= <-]. simpl. repeat split.
    apply elem_of_union_l. by apply elem_of_singleton.
Qed.

Lemma copy2_Ok (fs fs2 : FS) (src dst : string) :
  copy2 fs src dst = Ok fs2 →
  ∃ bytes, files fs !! src = Some bytes ∧
           files fs2 = <[copy2_target fs src dst := bytes]> (files fs) ∧
           dirs fs2 = dirs fs ∧
           (copy2_target fs src dst ∉ dirs fs) ∧
           read_only fs = false.
Proof.
  unfold copy2.
  destruct (files fs !! src) as [bytes|];
    [|by destruct (bool_decide (src ∈ dirs fs))].
  destruct (bool_decide (src = copy2_target fs src dst)); [done|].
  destruct (decide (copy2_target fs src dst ∈ dirs fs)) as [Hd|Hd];
    [by rewrite bool_decide_true|rewrite bool_decide_false by done].
  destruct (read_only fs); [done|]. intros [= <-]. by exists bytes.
Qed.

(** C5 (as stated, refuted): an image path is supplied, no such file is on
    disk, and [create_post] succeeds all the same: the post is recorded
    with no image reference and nothing was copied. *)
Lemma create_post_missing_image :
  let r := create_post None 101 store_alice no_files
             1 "Hi" "Body text" "Technology" (Some "/tmp/missing.png") in
  r.1.1 = (true, CreatedId 1) ∧
  posts r.1.2 !! 1 =
    Some (mk_post 1 "Hi" "Body text" "Technology" None 101 101) ∧
  files r.2 = ∅.
Proof. vm_compute. done. Qed.

(** C5 (amended): [create_post] first makes sure the image directory
    exists, and fails with the store untouched when that raises. When a
    non-empty image path is supplied and that path exists, the file is
    copied into the image directory before anything is recorded: if the
    copy raises, [create_post] returns [False] with the message and no post
    is recorded; if it completes, the copy holds the bytes of the source
    and the new post records the stored location. When no path is
    supplied, or the path is empty or does not exist, no copy is attempted
    and the post is recorded without an image reference. *)
Theorem create_post_image (fault : option exn) (now : Z) (st : Store)
    (fs : FS) (uid : Z) (t c cat : string) (image : option string) :
  let pid := next_rowid (seq_posts st) (posts st) in
  let recorded img st' :=
    posts st !! pid = None ∧
    posts st' = <[pid := mk_post uid t c cat img now now]> (posts st) in
  let run := create_post fault now st fs uid t c cat image in
  (∀ e, mkdir_exist_ok fs img_dir = Raise e →
     run = ((false, CreateError (str e)), st, fs)) ∧
  (∀ fs1 p, mkdir_exist_ok fs img_dir = Ok fs1 →
     truthy image = Some p → path_exists fs1 p = true →
     let stored := path_div img_dir (basename p) in
     img_dir ∈ dirs fs1 ∧
     (∀ e, copy2 fs1 p stored = Raise e →
        run = ((false, CreateError (str e)), st, fs1)) ∧
     (∀ fs2, copy2 fs1 p stored = Ok fs2 →
        (∃ bytes, files fs !! p = Some bytes ∧
                  files fs2 !! copy2_target fs1 p stored = Some bytes) ∧
        (fault = None →
           ∃ st', run = ((true, CreatedId pid), st', fs2) ∧
                  recorded (Some stored) st') ∧
        (∀ e, fault = Some e →
           run = ((false, CreateError (str e)), st, fs2)))) ∧
  (∀ fs1, mkdir_exist_ok fs img_dir = Ok fs1 →
     truthy image = None ∨
       (∃ p, truthy image = Some p ∧ path_exists fs1 p = false) →
     fault = None →
     ∃ st', run = ((true, CreatedId pid), st', fs1) ∧ recorded None st').
Proof.
  intros pid recorded run. subst run. unfold create_post.
  split; [|split].
  - by intros e ->.
  - intros fs1 p Hmk Htruthy Hexists.
    set (stored := path_div img_dir (basename p)).
    split; [by apply mkdir_exist_ok_Ok in Hmk as (? & _)|].
    rewrite Hmk, Htruthy, Hexists. fold stored. split.
    + by intros e ->.
    + intros fs2 Hcopy. rewrite Hcopy. simpl. split; [|split].
      * apply copy2_Ok in Hcopy as (bytes & Hsrc & Hfiles & _).
        apply mkdir_exist_ok_Ok in Hmk as (_ & Hsame & _).
        exists bytes. rewrite <- Hsame, Hfiles.
        split; [done|]. apply lookup_insert_eq.
      * intros ->. simpl. eexists. split; [reflexivity|].
        split; [apply next_rowid_fresh|done].
      * by intros e ->.
  - intros fs1 Hmk Hnone ->. rewrite Hmk.
    destruct Hnone as [->|(p & -> & ->)]; simpl;
      (eexists; split; [reflexivity|]);
      (split; [apply next_rowid_fresh|done]).
Qed.

Lemma create_post_image_witness :
  let fs1 := mk_fs (files one_picture) {[ img_dir ]} false in
  let fs2 := mk_fs (<["post_images/cat.png" := "PNG-bytes"]>
                      (files one_picture)) {[ img_dir ]} false in
  mkdir_exist_ok one_picture img_dir = Ok fs1 ∧
  path_exists fs1 "/home/alice/cat.png" = true ∧
  copy2 fs1 "/home/alice/cat.png" "post_images/cat.png" = Ok fs2 ∧
  ∃ st', create_post None 101 store_alice one_picture 1 "Hi" "Body text"
           "Technology" (Some "/home/alice/cat.png") =
           ((true, CreatedId 1), st', fs2) ∧
         posts st' =
           <[1 := mk_post 1 "Hi" "Body text" "Technology"
                    (Some "post_images/cat.png") 101 101]>
             (posts store_alice).
Proof.
  intros fs1 fs2.
  assert (Hmk : mkdir_exist_ok one_picture img_dir = Ok fs1)
    by (vm_compute; reflexivity).
  assert (Hex : path_exists fs1 "/home/alice/cat.png" = true)
    by (vm_compute; reflexivity).
  assert (Hcp : copy2 fs1 "/home/alice/cat.png" "post_images/cat.png" = Ok fs2)
    by (vm_compute; reflexivity).
  split; [exact Hmk|]. split; [exact Hex|]. split; [exact Hcp|].
  destruct (create_post_image None 101 store_alice one_picture 1
              "Hi" "Body text" "Technology" (Some "/home/alice/cat.png"))
    as (_ & Himg & _).
  destruct (Himg fs1 "/home/alice/cat.png" Hmk eq_refl Hex)
    as (_ & _ & Hok).
  destruct (Hok fs2 Hcp) as (_ & Hrec & _).
  destruct (Hrec eq_refl) as (st' & Hrun & _ & Hposts).
  exists st'. split; [exact Hrun|exact Hposts].
Defined.

(** ** The invariant of the data model *)

Section Invariant.
Variable sha256_hexdigest : string → string.

Lemma register_user_users (fault : option exn) (now : Z) (st : Store)
    (u e pw fn : string) :
  let st' := (register_user sha256_hexdigest fault now st u e pw fn).2 in
  st' = st ∨
  (username_taken st u = false ∧ email_taken st e = false ∧
   users st' =
     <[next_rowid (seq_users st) (users st) :=
         mk_user u e (hash_password sha256_hexdigest pw) fn now]>
       (users st)).
Proof.
  destruct fault as [err|]; [left; by destruct err|].
  unfold register_user, sql_insert_user. simpl.
  destruct (username_taken st u); [by left|].
  destruct (email_taken st e); [by left|].
  by right.
Qed.

Lemma run_op_users (fault : option exn) (now : Z) (fs : FS) (st : Store)
    (o : op) :
  users (run_op sha256_hexdigest fault now fs st o) = users st ∨
  ∃ u e pw fn, o = RegisterUser u e pw fn.
Proof.
  destruct o as [u e pw fn|uid t c cat image|pid t c cat|pid|pid uid txt];
    simpl; [right; by eauto| | | |]; left.
  - unfold create_post.
    destruct (mkdir_exist_ok fs img_dir) as [fs1|]; [|done].
    destruct (match truthy image with Some _ => _ | None => _ end)
      as [[stored fs2]|]; [|done].
    by destruct fault.
  - by destruct fault.
  - by destruct fault.
  - by destruct fault.
Qed.

Lemma run_op_unique (fault : option exn) (now : Z) (fs : FS) (st : Store)
    (o : op) :
  unique_usernames st ∧ unique_emails st →
  unique_usernames (run_op sha256_hexdigest fault now fs st o) ∧
  unique_emails (run_op sha256_hexdigest fault now fs st o).
Proof.
  intros [Hname Hmail].
  destruct (run_op_users fault now fs st o) as [Hsame|(u & e & pw & fn & ->)].
  { unfold unique_usernames, unique_emails. by rewrite Hsame. }
  simpl.
  destruct (register_user_users fault now st u e pw fn)
    as [->|(Hu & He & Hins)]; [done|].
  apply not_true_iff_false in Hu, He.
  rewrite username_taken_spec in Hu. rewrite email_taken_spec in He.
  unfold unique_usernames, unique_emails. rewrite Hins.
  split; intros i j r1 r2 Hi Hj Heq;
    apply lookup_insert_Some in Hi as [[<- <-]|[Hni Hi]];
    apply lookup_insert_Some in Hj as [[<- <-]|[Hnj Hj]];
    try done; simpl in Heq; try (exfalso; by eauto).
  - by eapply Hname.
  - by eapply Hmail.
Qed.

(** Usernames and emails are unique in every store the operations can
    produce. *)
Lemma reachable_unique (st : Store) :
  reachable sha256_hexdigest st → unique_usernames st ∧ unique_emails st.
Proof.
  induction 1 as [|st fault now fs o _ IH].
  - split; intros i j r1 r2 Hi; simpl in Hi; by rewrite lookup_empty in Hi.
  - by apply run_op_unique.
Qed.
End Invariant.

Lemma reachable_store_alice_comment :
  reachable demo_digest store_alice_comment.
Proof.
  apply (reachable_step demo_digest store_alice_post None 102 no_files
           (AddComment 1 1 "Nice!")).
  apply (reachable_step demo_digest store_alice None 101 no_files
           (CreatePost 1 "Hi" "Body text" "Technology" None)).
  apply (reachable_step demo_digest empty_store None 100 no_files
           (RegisterUser "alice" "a@x.com" "secret1" "Alice A")).
  constructor.
Qed.

(** C7 (failing inputs): three stores the operations produce from a new
    database, none of which satisfies the invariant. [add_comment 7 9] on
    the new database stores a comment whose post and user do not exist;
    [create_post] for user 42 stores a post without owner; [delete_post 1]
    after a comment on post 1 leaves that comment without its post. *)
Theorem reachable_without_integrity :
  (reachable demo_digest store_orphan_comment ∧
   add_comment None 50 empty_store 7 9 "orphan" =
     ((true, "Comment added!"), store_orphan_comment) ∧
   comments store_orphan_comment !! 1 = Some (mk_comment 7 9 "orphan" 50) ∧
   posts store_orphan_comment !! 7 = None ∧
   users store_orphan_comment !! 9 = None ∧
   ¬ store_invariant store_orphan_comment) ∧
  (reachable demo_digest store_orphan_post ∧
   posts store_orphan_post !! 1 =
     Some (mk_post 42 "Ghost" "Body" "News" None 60 60) ∧
   users store_orphan_post !! 42 = None ∧
   ¬ store_invariant store_orphan_post) ∧
  (let st := (delete_post None store_alice_comment 1).2 in
   reachable demo_digest st ∧
   comments st !! 1 = Some (mk_comment 1 1 "Nice!" 102) ∧
   posts st !! 1 = None ∧
   ¬ store_invariant st).
Proof.
  split; [|split].
  - split.
    { apply (reachable_step demo_digest empty_store None 50 no_files
               (AddComment 7 9 "orphan")). constructor. }
    split; [reflexivity|]. split; [by vm_compute|].
    split; [by vm_compute|]. split; [by vm_compute|].
    intros [[_ Hc] _].
    destruct (Hc 1 (mk_comment 7 9 "orphan" 50)) as [[p Hp] _];
      [by vm_compute|].
    vm_compute in Hp. discriminate Hp.
  - split.
    { apply (reachable_step demo_digest empty_store None 60 no_files
               (CreatePost 42 "Ghost" "Body" "News" None)). constructor. }
    split; [by vm_compute|]. split; [by vm_compute|].
    intros [[Hp _] _].
    destruct (Hp 1 (mk_post 42 "Ghost" "Body" "News" None 60 60))
      as [u Hu]; [by vm_compute|].
    vm_compute in Hu. discriminate Hu.
  - intros st. split.
    { apply (reachable_step demo_digest store_alice_comment None 0 no_files
               (DeletePost 1)). apply reachable_store_alice_comment. }
    split; [by vm_compute|]. split; [by vm_compute|].
    intros [[_ Hc] _].
    destruct (Hc 1 (mk_comment 1 1 "Nice!" 102)) as [[p Hp] _];
      [by vm_compute|].
    vm_compute in Hp. discriminate Hp.
Qed.

(** The statements that break referential integrity above keep it on a
    connection that enforces the foreign keys the schema declares. *)
Section Enforced.
Implicit Types (st : Store) (now pid uid : Z).

Lemma sql_insert_user_integrity now st st' (u e pw fn : string) :
  referential_integrity st →
  sql_insert_user now st u e pw fn = Ok st' →
  referential_integrity st'.
Proof.
  intros [Hp Hc]. unfold sql_insert_user.
  destruct (username_taken st u); [done|].
  destruct (email_taken st e); [done|]. intros [= <-].
  assert (Hkeep : ∀ i, is_Some (users st !! i) →
    is_Some (<[next_rowid (seq_users st) (users st) :=
                 mk_user u e pw fn now]> (users st) !! i)).
  { intros i Hi. apply lookup_insert_is_Some.
    destruct (decide (next_rowid (seq_users st) (users st) = i));
      [by left|by right]. }
  split.
  - intros pid p Hpid. simpl in *. apply Hkeep. by eapply Hp.
  - intros cid c Hcid. simpl in *.
    destruct (Hc cid c Hcid) as [? ?]. split; [done|by apply Hkeep].
Qed.

Lemma sql_insert_post_enforced now st st' uid pid (t c cat : string)
    (img : option string) :
  referential_integrity st →
  sql_insert_post enforcing now st uid t c cat img = Ok (pid, st') →
  referential_integrity st'.
Proof.
  intros [Hp Hc]. unfold sql_insert_post. simpl.
  destruct (decide (is_Some (users st !! uid))) as [Hu|Hu];
    [rewrite bool_decide_true by done|by rewrite bool_decide_false].
  simpl. intros [= <- <-]. split.
  - apply map_Forall_insert_2; [done|exact Hp].
  - intros cid cm Hcid. simpl in *.
    destruct (Hc cid cm Hcid) as [Hpost ?]. split; [|done].
    apply lookup_insert_is_Some.
    destruct (decide (next_rowid (seq_posts st) (posts st) =
                      comment_post_id cm)); [by left|by right].
Qed.

Lemma sql_insert_comment_enforced now st st' pid uid (txt : string) :
  referential_integrity st →
  sql_insert_comment enforcing now st pid uid txt = Ok st' →
  referential_integrity st'.
Proof.
  intros [Hp Hc]. unfold sql_insert_comment. simpl.
  destruct (decide (is_Some (posts st !! pid))) as [Hpost|Hpost];
    [rewrite bool_decide_true by done|by rewrite bool_decide_false].
  destruct (decide (is_Some (users st !! uid))) as [Hu|Hu];
    [rewrite bool_decide_true by done|by rewrite bool_decide_false].
  simpl. intros [= <-]. split; [exact Hp|].
  apply map_Forall_insert_2; [done|exact Hc].
Qed.

Lemma sql_update_post_integrity now st pid (t c cat : string) :
  referential_integrity st →
  referential_integrity (sql_update_post now st pid t c cat).
Proof.
  intros [Hp Hc]. split.
  - intros i p Hi. simpl in *.
    apply lookup_alter_Some in Hi as [(-> & p0 & Hp0 & ->)|[_ Hi]].
    + simpl. by eapply Hp.
    + by eapply Hp.
  - intros cid cm Hcid. simpl in *.
    destruct (Hc cid cm Hcid) as [[p Hpost] ?]. split; [|done].
    destruct (decide (comment_post_id cm = pid)) as [Heq|Hne].
    + rewrite <- Heq, lookup_alter_eq. apply fmap_is_Some. by eexists.
    + rewrite lookup_alter_ne by done. by eexists.
Qed.

Lemma sql_delete_post_enforced st pid :
  referential_integrity st →
  referential_integrity (sql_delete_post enforcing st pid).
Proof.
  intros [Hp Hc]. split.
  - intros i p Hi. simpl in *.
    apply lookup_delete_Some in Hi as [_ Hi]. by eapply Hp.
  - intros cid cm Hcid. simpl in *.
    destruct (decide (is_Some (posts st !! pid))) as [Hpost|Hpost].
    + rewrite bool_decide_true in Hcid by done.
      apply map_lookup_filter_Some in Hcid as [Hcid Hne]. simpl in Hne.
      destruct (Hc cid cm Hcid) as [? ?]. split; [|done].
      by rewrite lookup_delete_ne.
    + rewrite bool_decide_false in Hcid by done.
      destruct (Hc cid cm Hcid) as [? ?]. split; [|done].
      rewrite delete_id; [done|].
      by apply eq_None_not_Some.
Qed.
End Enforced.

(** ** The navigation controller *)

Lemma show_frame_ok (st : Store) (app : BlogApp) (cont : Page) :
  show_frame None st app cont =
    Ok {| current_user := current_user app;
          stacking := tkraise cont (stacking app);
          home_posts := if decide (cont = HomePage)
                        then sql_select_all_posts st
                        else home_posts app |}.
Proof. unfold show_frame. by destruct (decide (cont = HomePage)). Qed.

Lemma show_frame_not_home (fault : option exn) (st : Store) (app : BlogApp)
    (cont : Page) :
  cont ≠ HomePage →
  show_frame fault st app cont =
    Ok {| current_user := current_user app;
          stacking := tkraise cont (stacking app);
          home_posts := home_posts app |}.
Proof. intros Hne. unfold show_frame. by rewrite decide_False. Qed.

(** [set_user] on its own raises no page. *)
Lemma set_user_keeps_page (app : BlogApp) (uid : Z) (name : string) :
  active_page (set_user app uid name) = active_page app ∧
  current_user (set_user app uid name) = Some (uid, name).
Proof. done. Qed.

(** The home page queries the posts before it is raised, so a failure of
    the store leaves through [show_frame] and the page is not raised. *)
Lemma show_frame_home_fault (e : exn) (st : Store) (app : BlogApp) :
  show_frame (Some e) st app HomePage = Raise e.
Proof. reflexivity. Qed.

Lemma LoginPage_login_success (sha256_hexdigest : string → string)
    (st : Store) (app : BlogApp) (u pw : string) (uid : Z) (fn : string) :
  u ≠ "" → pw ≠ "" →
  login_user sha256_hexdigest None st u pw = (true, LoginRow uid fn) →
  LoginPage_login sha256_hexdigest None st app u pw =
    login None st app uid fn.
Proof.
  intros Hu Hpw Hlogin. unfold LoginPage_login.
  rewrite bool_decide_false by (by intros [?|?]).
  by rewrite Hlogin.
Qed.

(** C8: the controller starts on the login page with no current user;
    [login] sets the current user to the given id and name and raises the
    home page; [logout] clears the current user and raises the login page;
    [show_frame] raises the requested page and leaves the current user as
    it is, whether or not there is one. *)
Theorem navigation_transitions :
  (∀ st, ∃ app,
     BlogApp_init None st = Ok app ∧
     active_page app = Some LoginPage ∧ current_user app = None) ∧
  (∀ st app uid name, ∃ app',
     login None st app uid name = Ok app' ∧
     current_user app' = Some (uid, name) ∧
     active_page app' = Some HomePage) ∧
  (∀ fault st app, ∃ app',
     logout fault st app = Ok app' ∧
     current_user app' = None ∧ active_page app' = Some LoginPage) ∧
  (∀ st app page, ∃ app',
     show_frame None st app page = Ok app' ∧
     active_page app' = Some page ∧
     current_user app' = current_user app).
Proof.
  split; [|split; [|split]].
  - intros st. unfold BlogApp_init. simpl. rewrite show_frame_ok.
    by eexists.
  - intros st app uid name. unfold login. rewrite show_frame_ok.
    by eexists.
  - intros fault st app. unfold logout.
    rewrite show_frame_not_home by done. by eexists.
  - intros st app page. rewrite show_frame_ok. by eexists.
Qed.

(** * Further properties of the data store *)

(** ** Registration *)

Lemma register_user_true (sha256_hexdigest : string → string)
    (fault : option exn) (now : Z) (st st' : Store) (u e pw fn msg : string) :
  register_user sha256_hexdigest fault now st u e pw fn =
    ((true, msg), st') →
  fault = None ∧ msg = "Registration successful!" ∧
  username_taken st u = false ∧ email_taken st e = false ∧
  st' = {| users :=
             <[next_rowid (seq_users st) (users st) :=
                 mk_user u e (hash_password sha256_hexdigest pw) fn now]>
               (users st);
           posts := posts st; comments := comments st;
           seq_users := next_rowid (seq_users st) (users st);
           seq_posts := seq_posts st; seq_comments := seq_comments st |}.
Proof.
  destruct fault as [err|]; [by destruct err|].
  unfold register_user, sql_insert_user. simpl.
  destruct (username_taken st u); [done|].
  destruct (email_taken st e); [done|].
  by intros [= <- <-].
Qed.

(** X1: a password that was accepted at registration opens the account:
    after [register_user] has succeeded, [login_user] with the same
    username and password returns the id of the new row and the full name
    that was registered. *)
Theorem register_then_login (sha256_hexdigest : string → string)
    (now : Z) (st st' : Store) (u e pw fn : string) :
  register_user sha256_hexdigest None now st u e pw fn =
    ((true, "Registration successful!"), st') →
  login_user sha256_hexdigest None st' u pw =
    (true, LoginRow (next_rowid (seq_users st) (users st)) fn).
Proof.
  intros Hreg.
  apply register_user_true in Hreg as (_ & _ & Hu & _ & ->).
  rewrite login_user_ok.
  set (id := next_rowid (seq_users st) (users st)).
  set (hashed := hash_password sha256_hexdigest pw).
  set (st' := mk_store _ _ _ _ _ _).
  assert (Hnew : users st' !! id = Some (mk_user u e hashed fn now))
    by apply lookup_insert_eq.
  destruct (sql_select_login_is_Some st' u hashed id _ Hnew eq_refl eq_refl)
    as [[uid' fn'] Hsel].
  rewrite Hsel.
  apply sql_select_login_Some in Hsel as (r & Hr & Hname & _ & Hfn).
  simpl in Hr. apply lookup_insert_Some in Hr as [[<- <-]|[_ Hold]].
  - simpl in Hfn. by rewrite Hfn.
  - exfalso. apply not_true_iff_false in Hu. apply Hu.
    apply username_taken_spec. eauto.
Qed.

Lemma register_then_login_witness :
  login_user demo_digest None store_alice "alice" "secret1" =
    (true, LoginRow 1 "Alice A").
Proof.
  apply (register_then_login demo_digest 100 empty_store store_alice
           "alice" "a@x.com" "secret1" "Alice A").
  reflexivity.
Defined.


(** ** Posts *)

Lemma create_post_true (fault : option exn) (now : Z) (st st' : Store)
    (fs fs' : FS) (uid pid : Z) (t c cat : string) (image : option string) :
  create_post fault now st fs uid t c cat image =
    ((true, CreatedId pid), st', fs') →
  fault = None ∧ pid = next_rowid (seq_posts st) (posts st) ∧
  ∃ img,
    (img = None ∨
     ∃ p, truthy image = Some p ∧ img = Some (path_div img_dir (basename p))) ∧
    st' = {| users := users st;
             posts := <[pid := mk_post uid t c cat img now now]> (posts st);
             comments := comments st;
             seq_users := seq_users st;
             seq_posts := pid; seq_comments := seq_comments st |}.
Proof.
  unfold create_post.
  destruct (mkdir_exist_ok fs img_dir) as [fs1|]; [|done].
  destruct fault as [e|].
  { destruct (match truthy image with Some _ => _ | None => _ end)
      as [[stored fs2]|]; done. }
  destruct (truthy image) as [p|] eqn:Htruthy.
  - destruct (path_exists fs1 p).
    + destruct (copy2 fs1 p _) as [fs2|]; [|done]. simpl.
      intros [= <- <- <-]. split; [done|]. split; [done|].
      eexists. split; [|done]. right. by exists p.
    + simpl. intros [= <- <- <-]. split; [done|]. split; [done|].
      eexists. split; [|done]. by left.
  - simpl. intros [= <- <- <-]. split; [done|]. split; [done|].
    eexists. split; [|done]. by left.
Qed.

(** X3: a post that [create_post] has recorded for an existing user can be
    read back: [get_post_details] on the returned id gives the title,
    content and category that were passed, the time of the call, the
    owner's username and full name, the owner's id, and as image either
    nothing or the stored location inside the image directory. *)
Theorem create_post_then_details (now : Z) (st st' : Store) (fs fs' : FS)
    (uid pid : Z) (t c cat : string) (image : option string) (u : user_row) :
  users st !! uid = Some u →
  create_post None now st fs uid t c cat image =
    ((true, CreatedId pid), st', fs') →
  ∃ img,
    get_post_details None st' pid =
      Ok (Some (mk_details pid t c cat now (username u) (full_name u) uid
                           img)) ∧
    (img = None ∨
     ∃ p, truthy image = Some p ∧ img = Some (path_div img_dir (basename p))).
Proof.
  intros Hu Hrun.
  apply create_post_true in Hrun as (_ & _ & img & Himg & ->).
  exists img. split; [|done].
  unfold get_post_details, sql_select_post_details. simpl.
  rewrite lookup_insert_eq. simpl. by rewrite Hu.
Qed.

Lemma create_post_then_details_witness :
  ∃ img,
    get_post_details None store_alice_post 1 =
      Ok (Some (mk_details 1 "Hi" "Body text" "Technology" 101
                           "alice" "Alice A" 1 img)).
Proof.
  destruct (create_post_then_details 101 store_alice store_alice_post
              no_files (mk_fs ∅ {[ img_dir ]} false) 1 1
              "Hi" "Body text" "Technology" None
              (mk_user "alice" "a@x.com" (demo_digest "secret1")
                       "Alice A" 100))
    as (img & Hdetails & _).
  - vm_compute. reflexivity.
  - vm_compute. reflexivity.
  - exists img. exact Hdetails.
Defined.

(** X4: what [update_post] changes, as [get_post_details] shows it: the
    post with the given id reads back with the new title, content and
    category and with its id, creation time, author and image as before;
    a post that cannot be read before cannot be read after; every other
    post reads back the same. *)
Theorem update_post_then_details (now : Z) (st : Store) (pid pid' : Z)
    (t c cat : string) :
  let st' := (update_post None now st pid t c cat).2 in
  get_post_details None st' pid =
    Ok (retitled t c cat <$> sql_select_post_details st pid) ∧
  (pid' ≠ pid →
   get_post_details None st' pid' = get_post_details None st pid').
Proof.
  rewrite update_post_ok. simpl.
  unfold get_post_details, sql_select_post_details. simpl. split.
  - rewrite lookup_alter_eq.
    destruct (posts st !! pid) as [p|]; simpl; [|done].
    by destruct (users st !! post_user_id p).
  - intros Hne. by rewrite lookup_alter_ne.
Qed.

Lemma omap_join_ids_sublist (st : Store) (l : list (Z * post_row)) :
  pl_post_id <$> omap (join_post_user st) l `sublist_of` l.*1.
Proof.
  induction l as [|[pid p] l IH]; [done|].
  unfold omap at 1. simpl. fold (omap (join_post_user st) l).
  unfold join_post_user at 1. simpl.
  destruct (users st !! post_user_id p) as [u|]; simpl.
  - by apply sublist_skip.
  - by apply sublist_cons.
Qed.

Lemma elem_of_select_all_posts (st : Store) (row : post_listing) :
  row ∈ sql_select_all_posts st ↔
  ∃ pid p u, posts st !! pid = Some p ∧
             users st !! post_user_id p = Some u ∧
             row = listing_of pid p u.
Proof.
  unfold sql_select_all_posts.
  rewrite elem_of_order_by_desc, list_elem_of_omap. split.
  - intros ([pid p] & Hin & Hjoin). apply elem_of_map_to_list in Hin.
    unfold join_post_user in Hjoin. simpl in Hjoin.
    destruct (users st !! post_user_id p) as [u|] eqn:Hu; [|done].
    injection Hjoin as <-. by exists pid, p, u.
  - intros (pid & p & u & Hp & Hu & ->). exists (pid, p).
    split; [by apply elem_of_map_to_list|].
    by apply join_post_user_owner.
Qed.

(** X5: the list of [get_all_posts] and [get_post_details] agree. A row is
    in the list exactly when [get_post_details] finds a post under the
    row's id and the row carries that post's id, title, content, category,
    creation time, author names and image; no post id is listed twice. *)
Theorem all_posts_agree_with_details (st : Store) :
  ∃ all,
    get_all_posts None st = Ok all ∧
    NoDup (pl_post_id <$> all) ∧
    ∀ row, row ∈ all ↔
      ∃ d, get_post_details None st (pl_post_id row) = Ok (Some d) ∧
           row = summary d.
Proof.
  exists (sql_select_all_posts st). split; [done|]. split.
  - unfold sql_select_all_posts. rewrite order_by_desc_perm.
    eapply sublist_NoDup; [apply (NoDup_fst_map_to_list (posts st))|].
    apply omap_join_ids_sublist.
  - intros row. rewrite elem_of_select_all_posts.
    unfold get_post_details, sql_select_post_details. simpl. split.
    + intros (pid & p & u & Hp & Hu & ->). simpl. rewrite Hp. simpl.
      rewrite Hu. simpl. by eexists.
    + intros (d & Hd & ->).
      destruct (posts st !! pl_post_id (summary d)) as [p|] eqn:Hp; [|done].
      simpl in Hd.
      destruct (users st !! post_user_id p) as [u|] eqn:Hu; [|done].
      simpl in Hd. injection Hd as <-. simpl in *.
      by exists (pl_post_id (summary d)), p, u.
Qed.

Lemma map_to_list_delete_filter {A : Type} (m : gmap Z A) (k : Z) :
  map_to_list (delete k m) ≡ₚ
  filter (λ kv : Z * A, kv.1 ≠ k) (map_to_list m).
Proof.
  apply NoDup_Permutation.
  - apply NoDup_map_to_list.
  - apply NoDup_filter, NoDup_map_to_list.
  - intros [i x]. rewrite list_elem_of_filter, !elem_of_map_to_list.
    rewrite lookup_delete_Some. simpl.
    split; intros [? ?]; by split.
Qed.

Lemma omap_cons_match {A B : Type} (f : A → option B) (x : A)
    (l : list A) :
  omap f (x :: l) =
    match f x with Some y => y :: omap f l | None => omap f l end.
Proof. reflexivity. Qed.

Lemma join_post_user_id (st : Store) (kp : Z * post_row)
    (row : post_listing) :
  join_post_user st kp = Some row → pl_post_id row = kp.1.
Proof.
  unfold join_post_user.
  destruct (users st !! post_user_id kp.2) as [u|]; [|done].
  by intros [= <-].
Qed.

Lemma omap_join_filter (st : Store) (k : Z) (l : list (Z * post_row)) :
  omap (join_post_user st) (filter (λ kp : Z * post_row, kp.1 ≠ k) l) =
  filter (λ row, pl_post_id row ≠ k) (omap (join_post_user st) l).
Proof.
  induction l as [|kp l IH]; [done|].
  rewrite filter_cons, omap_cons_match.
  destruct (join_post_user st kp) as [row|] eqn:Hjoin.
  - apply join_post_user_id in Hjoin as Hid. rewrite filter_cons, Hid.
    destruct (decide (kp.1 ≠ k)); [|done].
    by rewrite omap_cons_match, Hjoin, IH.
  - destruct (decide (kp.1 ≠ k)); [|done].
    by rewrite omap_cons_match, Hjoin, IH.
Qed.

(** X6: after [delete_post] the list of [get_all_posts] is the list from
    before without the row of the deleted post: the same rows otherwise,
    still newest first. Deleting an id that is not listed changes
    nothing in the list but, possibly, the order of posts created at the
    same time. *)
Theorem delete_post_then_all_posts (st : Store) (pid : Z) :
  ∃ before after,
    get_all_posts None st = Ok before ∧
    get_all_posts None (delete_post None st pid).2 = Ok after ∧
    after ≡ₚ filter (λ row, pl_post_id row ≠ pid) before ∧
    newest_first pl_created_at after.
Proof.
  exists (sql_select_all_posts st),
         (sql_select_all_posts (delete_post None st pid).2).
  split; [done|]. split; [done|]. split; [|apply order_by_desc_sorted].
  rewrite delete_post_ok. unfold sql_select_all_posts.
  rewrite !order_by_desc_perm. simpl.
  rewrite map_to_list_delete_filter.
  by rewrite <- omap_join_filter.
Qed.

(** ** Comments *)

Lemma join_comment_user_Some (st : Store) (kc : Z * comment_row)
    (row : comment_listing) :
  join_comment_user st kc = Some row ↔
  ∃ u, users st !! comment_user_id kc.2 = Some u ∧
       row = mk_comment_listing kc.1 (comment_text kc.2) (username u)
                                (comment_created_at kc.2).
Proof.
  unfold join_comment_user.
  destruct (users st !! comment_user_id kc.2) as [u|]; simpl.
  - split; [intros [= <-]; by exists u|by intros (? & [= <-] & ->)].
  - split; [done|by intros (? & ? & _)].
Qed.

Lemma omap_join_comment_ids_sublist (st : Store)
    (l : list (Z * comment_row)) :
  cl_comment_id <$> omap (join_comment_user st) l `sublist_of` l.*1.
Proof.
  induction l as [|kc l IH]; [done|].
  rewrite omap_cons_match.
  destruct (join_comment_user st kc) as [row|] eqn:Hjoin.
  - apply join_comment_user_Some in Hjoin as (u & _ & ->).
    rewrite !fmap_cons. by apply sublist_skip.
  - rewrite fmap_cons. by apply sublist_cons.
Qed.

(** X7: [get_post_comments] returns one row for every comment of the post
    whose author has a user row, with the comment's id, text and time and
    the author's username, and nothing else; no comment is listed twice,
    and the times never increase along the list. A comment whose
    [user_id] has no user row is not listed. *)
Theorem post_comments_listed (st : Store) (pid : Z) :
  ∃ rows,
    get_post_comments None st pid = Ok rows ∧
    (∀ row, row ∈ rows ↔
       ∃ cid c u, comments st !! cid = Some c ∧
                  comment_post_id c = pid ∧
                  users st !! comment_user_id c = Some u ∧
                  row = mk_comment_listing cid (comment_text c) (username u)
                                           (comment_created_at c)) ∧
    NoDup (cl_comment_id <$> rows) ∧
    newest_first cl_created_at rows.
Proof.
  exists (sql_select_post_comments st pid). split; [done|].
  unfold sql_select_post_comments.
  split; [|split; [|apply order_by_desc_sorted]].
  - intros row. rewrite elem_of_order_by_desc, list_elem_of_omap. split.
    + intros ([cid c] & Hin & Hjoin).
      apply list_elem_of_filter in Hin as [Hpid Hin].
      apply elem_of_map_to_list in Hin.
      apply join_comment_user_Some in Hjoin as (u & Hu & ->).
      by exists cid, c, u.
    + intros (cid & c & u & Hc & Hpid & Hu & ->). exists (cid, c). split.
      * apply list_elem_of_filter. split; [done|].
        by apply elem_of_map_to_list.
      * apply join_comment_user_Some. by exists u.
  - rewrite order_by_desc_perm.
    eapply sublist_NoDup; [apply (NoDup_fst_map_to_list (comments st))|].
    etrans; [apply omap_join_comment_ids_sublist|].
    apply fmap_sublist, sublist_filter.
Qed.



(** ** Row ids *)

Lemma max_rowid_nonneg {A : Type} (t : gmap Z A) : 0 ≤ max_rowid t.
Proof.
  unfold max_rowid. induction (map_to_list t) as [|[j y] l IH]; [done|].
  rewrite fmap_cons. cbn [foldr fst]. lia.
Qed.

Lemma next_rowid_above {A : Type} (seq : Z) (t : gmap Z A) :
  seq < next_rowid seq t ∧ 1 ≤ next_rowid seq t.
Proof.
  pose proof (max_rowid_nonneg t). unfold next_rowid. lia.
Qed.

(** The store after one operation: the store before, or the store before
    with one row inserted under a new id, one post rewritten, or one post
    deleted. *)
Lemma run_op_cases (sha256_hexdigest : string → string)
    (fault : option exn) (now : Z) (fs : FS) (st : Store) (o : op) :
  let st' := run_op sha256_hexdigest fault now fs st o in
  st' = st ∨
  (∃ row, st' = {| users := <[next_rowid (seq_users st) (users st) := row]>
                              (users st);
                   posts := posts st; comments := comments st;
                   seq_users := next_rowid (seq_users st) (users st);
                   seq_posts := seq_posts st;
                   seq_comments := seq_comments st |}) ∨
  (∃ row, st' = {| users := users st;
                   posts := <[next_rowid (seq_posts st) (posts st) := row]>
                              (posts st);
                   comments := comments st;
                   seq_users := seq_users st;
                   seq_posts := next_rowid (seq_posts st) (posts st);
                   seq_comments := seq_comments st |}) ∨
  (∃ pid t c cat, st' = sql_update_post now st pid t c cat) ∨
  (∃ pid, st' = sql_delete_post {| foreign_keys := false |} st pid) ∨
  (∃ row, st' = {| users := users st; posts := posts st;
                   comments :=
                     <[next_rowid (seq_comments st) (comments st) := row]>
                       (comments st);
                   seq_users := seq_users st; seq_posts := seq_posts st;
                   seq_comments :=
                     next_rowid (seq_comments st) (comments st) |}).
Proof.
  destruct o as [u e pw fn|uid t c cat image|pid t c cat|pid|pid uid txt];
    simpl.
  - destruct fault as [err|]; [left; by destruct err|].
    unfold register_user, sql_insert_user. simpl.
    destruct (username_taken st u); [by left|].
    destruct (email_taken st e); [by left|].
    right; left. by eexists.
  - unfold create_post.
    destruct (mkdir_exist_ok fs img_dir) as [fs1|]; [|by left].
    destruct (match truthy image with Some _ => _ | None => _ end)
      as [[stored fs2]|]; [|by left].
    destruct fault; [by left|]. simpl.
    right; right; left. by eexists.
  - destruct fault; [by left|]. do 3 right. left. by exists pid, t, c, cat.
  - destruct fault; [by left|]. do 4 right. left. by exists pid.
  - destruct fault; [by left|]. do 5 right. by eexists.
Qed.

Lemma map_Forall_insert_fresh_bound {A : Type} (seq : Z) (t : gmap Z A)
    (x : A) :
  map_Forall (λ i _, 1 ≤ i ≤ seq) t →
  map_Forall (λ i _, 1 ≤ i ≤ next_rowid seq t)
             (<[next_rowid seq t := x]> t).
Proof.
  intros Hb. pose proof (next_rowid_above seq t) as [? ?].
  apply map_Forall_insert_2; [lia|].
  intros i y Hi. specialize (Hb i y Hi). simpl in *. lia.
Qed.

(** X9: in every store the operations can produce from a new database,
    each row id of each table lies between 1 and the largest id the table
    has handed out. *)
Theorem reachable_ids_bounded (sha256_hexdigest : string → string)
    (st : Store) :
  reachable sha256_hexdigest st → ids_bounded st.
Proof.
  induction 1 as [|st fault now fs o _ (Hu & Hp & Hc)].
  - split; [|split]; apply map_Forall_empty.
  - destruct (run_op_cases sha256_hexdigest fault now fs st o)
      as [->|[[row ->]|[[row ->]|[(pid & t & c & cat & ->)|[[pid ->]|[row ->]]]]]];
      unfold ids_bounded; simpl.
    + done.
    + split; [by apply map_Forall_insert_fresh_bound|done].
    + split; [done|]. split; [by apply map_Forall_insert_fresh_bound|done].
    + split; [done|]. split; [|done].
      intros i p Hi. apply lookup_alter_Some in Hi
        as [(-> & p0 & Hp0 & _)|[_ Hi]]; by eapply Hp.
    + split; [done|]. split; [|done].
      intros i p Hi. apply lookup_delete_Some in Hi as [_ Hi]. by eapply Hp.
    + split; [done|]. split; [done|].
      by apply map_Forall_insert_fresh_bound.
Qed.

Lemma reachable_ids_bounded_witness : ids_bounded store_alice_comment.
Proof.
  apply (reachable_ids_bounded demo_digest store_alice_comment).
  apply (reachable_step demo_digest store_alice_post None 102 no_files
           (AddComment 1 1 "Nice!")).
  apply (reachable_step demo_digest store_alice None 101 no_files
           (CreatePost 1 "Hi" "Body text" "Technology" None)).
  apply (reachable_step demo_digest empty_store None 100 no_files
           (RegisterUser "alice" "a@x.com" "secret1" "Alice A")).
  apply reachable_empty.
Defined.

(** X10: the counters never go down, and a row that an operation adds
    gets an id above the counter, hence above every id the table has
    handed out so far: the id of a deleted post is not given to a later
    post. *)
Theorem new_ids_above_counter (sha256_hexdigest : string → string)
    (fault : option exn) (now : Z) (fs : FS) (st : Store) (o : op) :
  let st' := run_op sha256_hexdigest fault now fs st o in
  (seq_users st ≤ seq_users st' ∧ seq_posts st ≤ seq_posts st' ∧
   seq_comments st ≤ seq_comments st') ∧
  (∀ i, is_Some (users st' !! i) → users st !! i = None →
        seq_users st < i) ∧
  (∀ i, is_Some (posts st' !! i) → posts st !! i = None →
        seq_posts st < i) ∧
  (∀ i, is_Some (comments st' !! i) → comments st !! i = None →
        seq_comments st < i).
Proof.
  intros st'. subst st'.
  pose proof (next_rowid_above (seq_users st) (users st)) as [? _].
  pose proof (next_rowid_above (seq_posts st) (posts st)) as [? _].
  pose proof (next_rowid_above (seq_comments st) (comments st)) as [? _].
  assert (Hold : ∀ {A} (t : gmap Z A) i (P : Prop),
            is_Some (t !! i) → t !! i = None → P).
  { intros A t i P [x Hx] Hn. congruence. }
  assert (Hins : ∀ {A} (t : gmap Z A) seq x i,
            is_Some (<[next_rowid seq t := x]> t !! i) → t !! i = None →
            seq < i).
  { intros A t seq x i Hi Hn. apply lookup_insert_is_Some in Hi as [<-|[_ Hi]].
    - apply next_rowid_above.
    - by eapply Hold. }
  assert (Halter : ∀ (f : post_row → post_row) pid i,
            is_Some (alter f pid (posts st) !! i) → posts st !! i = None →
            seq_posts st < i).
  { intros f pid i [p Hp] Hn.
    apply (lookup_alter_None f (posts st) pid i) in Hn. congruence. }
  assert (Hdelete : ∀ pid i,
            is_Some (delete pid (posts st) !! i) → posts st !! i = None →
            seq_posts st < i).
  { intros pid i [p Hp] Hn.
    apply lookup_delete_Some in Hp as [_ Hp]. congruence. }
  destruct (run_op_cases sha256_hexdigest fault now fs st o)
    as [->|[[row ->]|[[row ->]|[(pid & t & c & cat & ->)|[[pid ->]|[row ->]]]]]];
    simpl; (split; [lia|]); (split; [|split]); intros i Hi Hn;
    first [by eapply Hold|by eapply Hins|by eapply Halter|by eapply Hdelete].
Qed.


(** ** Image files *)

Lemma string_app_assoc (a b c : string) :
  (a +:+ b) +:+ c = a +:+ (b +:+ c).
Proof.
  induction a as [|x a IH]; [done|].
  change (String x ((a +:+ b) +:+ c) = String x (a +:+ (b +:+ c))).
  by rewrite IH.
Qed.

Lemma contains_slash_app (a b : string) :
  contains_slash (a +:+ b) = contains_slash a || contains_slash b.
Proof.
  induction a as [|c a IH]; [done|].
  change (Ascii.eqb c "/" || contains_slash (a +:+ b) =
          Ascii.eqb c "/" || contains_slash a || contains_slash b).
  rewrite IH. by destruct (Ascii.eqb c "/").
Qed.

Lemma basename_from_split (p pre : string) :
  contains_slash pre = false →
  ∃ dir, pre +:+ p = dir +:+ basename_from (pre +:+ p) p ∧
         (dir = "" ∨ ∃ d, dir = d +:+ "/") ∧
         contains_slash (basename_from (pre +:+ p) p) = false.
Proof.
  revert pre. induction p as [|c rest IH]; intros pre Hpre.
  - exists "". cbn [basename_from]. split; [done|]. split; [by left|].
    by rewrite contains_slash_app, Hpre.
  - cbn [basename_from]. destruct (Ascii.eqb c "/") eqn:Hc.
    + apply Ascii.eqb_eq in Hc as ->.
      destruct (IH "" eq_refl) as (dir & Hsplit & Hdir & Hno).
      change ("" +:+ rest) with rest in Hsplit, Hno.
      exists (pre +:+ "/" +:+ dir).
      split; [|split; [|done]].
      * rewrite !string_app_assoc.
        change ("/" +:+ rest) with (String "/" rest).
        change ("/" +:+ dir +:+ basename_from rest rest)
          with (String "/" (dir +:+ basename_from rest rest)).
        by rewrite <- Hsplit.
      * right. destruct Hdir as [->|[d ->]].
        -- exists pre. done.
        -- exists (pre +:+ "/" +:+ d). by rewrite !string_app_assoc.
    + replace (pre +:+ String c rest)
        with ((pre +:+ String c "") +:+ rest)
        by (by rewrite string_app_assoc).
      apply IH. rewrite contains_slash_app, Hpre.
      cbn [contains_slash]. by rewrite Hc.
Qed.

(** What [os.path.basename] keeps of a path: the part after the last
    slash. *)
Lemma basename_split (p : string) :
  ∃ dir, p = dir +:+ basename p ∧
         (dir = "" ∨ ∃ d, dir = d +:+ "/") ∧
         contains_slash (basename p) = false.
Proof. apply (basename_from_split p "" eq_refl). Qed.

Lemma copy2_Ok_target (fs fs2 : FS) (src dst : string) :
  copy2 fs src dst = Ok fs2 →
  copy2_target fs src dst ≠ src ∧
  (copy2_target fs src dst = dst ∨
   copy2_target fs src dst = dst +:+ "/" +:+ basename src) ∧
  read_only fs2 = read_only fs.
Proof.
  unfold copy2. destruct (files fs !! src) as [bytes|];
    [|by destruct (bool_decide (src ∈ dirs fs))].
  destruct (decide (src = copy2_target fs src dst)) as [Heq|Hne];
    [by rewrite bool_decide_true|rewrite bool_decide_false by done].
  destruct (bool_decide (copy2_target fs src dst ∈ dirs fs)); [done|].
  destruct (read_only fs) eqn:Hro; [done|]. intros [= <-]. simpl.
  split; [done|]. split; [|done].
  unfold copy2_target. destruct (bool_decide (dst ∈ dirs fs)); auto.
Qed.

Lemma create_post_fs_cases (fault : option exn) (now : Z) (st : Store)
    (fs : FS) (uid : Z) (t c cat : string) (image : option string) :
  let fs' := (create_post fault now st fs uid t c cat image).2 in
  fs' = fs ∨
  ∃ fs1, mkdir_exist_ok fs img_dir = Ok fs1 ∧
         (fs' = fs1 ∨
          ∃ p, truthy image = Some p ∧ path_exists fs1 p = true ∧
               copy2 fs1 p (path_div img_dir (basename p)) = Ok fs').
Proof.
  unfold create_post.
  destruct (mkdir_exist_ok fs img_dir) as [fs1|]; [|by left].
  right. exists fs1. split; [done|].
  destruct (truthy image) as [p|].
  - destruct (path_exists fs1 p) eqn:Hex.
    + destruct (copy2 fs1 p _) as [fs2|] eqn:Hcopy; simpl; [|by left].
      right. exists p. repeat split; [done|].
      by destruct fault.
    + left. by destruct fault.
  - left. by destruct fault.
Qed.

(** X11: what [create_post] does to the disk, whatever its outcome. It
    never changes whether the volume is writable, never removes a
    directory and adds none but the image directory. It leaves every file
    as it is, except that it may write one file: a copy of the bytes of
    the supplied image, at a path other than the image's own, which is
    the image directory joined with the image's base name (or, when that
    path is a directory, the base name inside it). The base name has no
    slash, and the supplied image keeps its bytes. *)
Theorem create_post_disk_frame (fault : option exn) (now : Z) (st : Store)
    (fs : FS) (uid : Z) (t c cat : string) (image : option string) :
  let fs' := (create_post fault now st fs uid t c cat image).2 in
  read_only fs' = read_only fs ∧
  dirs fs ⊆ dirs fs' ∧ dirs fs' ⊆ {[ img_dir ]} ∪ dirs fs ∧
  (files fs' = files fs ∨
   ∃ p bytes target,
     truthy image = Some p ∧ files fs !! p = Some bytes ∧
     files fs' = <[target := bytes]> (files fs) ∧
     target ≠ p ∧ files fs' !! p = Some bytes ∧
     (target = path_div img_dir (basename p) ∨
      target = path_div img_dir (basename p) +:+ "/" +:+ basename p) ∧
     contains_slash (basename p) = false).
Proof.
  intros fs'.
  destruct (create_post_fs_cases fault now st fs uid t c cat image)
    as [Hfs|(fs1 & Hmk & Hcases)]; fold fs' in Hfs || fold fs' in Hcases.
  { rewrite Hfs. repeat split; [done| |by left].
    apply union_subseteq_r. }
  apply mkdir_exist_ok_Ok in Hmk as (_ & Hfiles & Hro & Hdirs).
  destruct Hcases as [->|(p & Htruthy & _ & Hcopy)].
  { rewrite Hro, Hdirs, Hfiles. repeat split; [|done|by left].
    apply union_subseteq_r. }
  pose proof (copy2_Ok_target _ _ _ _ Hcopy) as (Hne & Htarget & Hro2).
  apply copy2_Ok in Hcopy as (bytes & Hsrc & Hfiles2 & Hdirs2 & _).
  rewrite Hro2, Hro, Hdirs2, Hdirs, Hfiles2, Hfiles.
  repeat split; [apply union_subseteq_r|done|].
  right. exists p, bytes, (copy2_target fs1 p (path_div img_dir (basename p))).
  rewrite Hfiles in Hsrc.
  split; [done|]. split; [done|]. split; [done|]. split; [done|].
  split; [by rewrite lookup_insert_ne|]. split; [done|].
  by destruct (basename_split p) as (_ & _ & _ & ?).
Qed.

Lemma create_post_true_copied (fault : option exn) (now : Z)
    (st st' : Store) (fs fs' : FS) (uid pid : Z) (t c cat : string)
    (image : option string) (p : string) :
  create_post fault now st fs uid t c cat image =
    ((true, CreatedId pid), st', fs') →
  truthy image = Some p → is_Some (files fs !! p) →
  let stored := path_div img_dir (basename p) in
  ∃ fs1, mkdir_exist_ok fs img_dir = Ok fs1 ∧
         copy2 fs1 p stored = Ok fs' ∧
         pid = next_rowid (seq_posts st) (posts st) ∧
         seq_posts st' = pid ∧
         posts st' =
           <[pid := mk_post uid t c cat (Some stored) now now]> (posts st).
Proof.
  intros Hrun Htruthy Hfile stored. revert Hrun. unfold create_post.
  destruct (mkdir_exist_ok fs img_dir) as [fs1|] eqn:Hmk; [|done].
  rewrite Htruthy.
  assert (path_exists fs1 p = true) as ->.
  { apply mkdir_exist_ok_Ok in Hmk as (_ & Hfiles & _).
    unfold path_exists. rewrite Hfiles.
    by rewrite bool_decide_true. }
  fold stored.
  destruct (copy2 fs1 p stored) as [fs2|] eqn:Hcopy; [|done]. simpl.
  destruct fault; [done|]. simpl. intros [= <- <- <-].
  by exists fs1.
Qed.

(** X12: stored images are named by base name alone, so two images of
    the same name collide. When two posts are created from two existing
    files with equal base names, both posts record the same stored
    location, and after the second call that location holds the bytes of
    the second file, where it held the bytes of the first before: the
    first post has lost its image to the second. *)
Theorem same_name_images_collide (now1 now2 : Z) (st st1 st2 : Store)
    (fs fs1 fs2 : FS) (uid1 uid2 i1 i2 : Z)
    (t1 c1 cat1 t2 c2 cat2 p1 p2 : string) :
  let stored := path_div img_dir (basename p1) in
  p1 ≠ "" → p2 ≠ "" → basename p1 = basename p2 →
  stored ≠ img_dir → stored ∉ dirs fs →
  is_Some (files fs !! p1) → is_Some (files fs1 !! p2) →
  create_post None now1 st fs uid1 t1 c1 cat1 (Some p1) =
    ((true, CreatedId i1), st1, fs1) →
  create_post None now2 st1 fs1 uid2 t2 c2 cat2 (Some p2) =
    ((true, CreatedId i2), st2, fs2) →
  i1 ≠ i2 ∧
  image_path <$> posts st2 !! i1 = Some (Some stored) ∧
  image_path <$> posts st2 !! i2 = Some (Some stored) ∧
  files fs1 !! stored = files fs !! p1 ∧
  files fs2 !! stored = files fs1 !! p2.
Proof.
  intros stored Hp1 Hp2 Hbase Hnotdir Hnodir Hf1 Hf2 Hrun1 Hrun2.
  assert (Ht : ∀ p, p ≠ "" → truthy (Some p) = Some p).
  { intros p Hp. unfold truthy. by rewrite bool_decide_false. }
  apply (create_post_true_copied _ _ _ _ _ _ _ _ _ _ _ _ p1) in Hrun1
    as (fsa & Hmk1 & Hcopy1 & Hi1 & Hseq1 & Hposts1); [|by apply Ht|done].
  apply (create_post_true_copied _ _ _ _ _ _ _ _ _ _ _ _ p2) in Hrun2
    as (fsb & Hmk2 & Hcopy2 & Hi2 & _ & Hposts2); [|by apply Ht|done].
  rewrite <- Hbase in Hcopy2, Hposts2. fold stored in Hcopy1, Hcopy2.
  fold stored in Hposts1, Hposts2.
  apply mkdir_exist_ok_Ok in Hmk1 as (_ & Hfiles1 & _ & Hdirs1).
  apply mkdir_exist_ok_Ok in Hmk2 as (_ & Hfiles2 & _ & Hdirs2).
  assert (Hta : copy2_target fsa p1 stored = stored).
  { unfold copy2_target. rewrite bool_decide_false; [done|].
    rewrite Hdirs1. intros [Hin|Hin]%elem_of_union; [|done].
    by apply elem_of_singleton in Hin. }
  apply copy2_Ok in Hcopy1 as (b1 & Hsrc1 & Hfs1 & Hd1 & _).
  rewrite Hta in Hfs1.
  assert (Htb : copy2_target fsb p2 stored = stored).
  { unfold copy2_target. rewrite bool_decide_false; [done|].
    rewrite Hdirs2, Hd1, Hdirs1.
    intros [Hin|[Hin|Hin]%elem_of_union]%elem_of_union; try done;
      by apply elem_of_singleton in Hin. }
  apply copy2_Ok in Hcopy2 as (b2 & Hsrc2 & Hfs2 & _).
  rewrite Htb in Hfs2.
  assert (Hlt : i1 < i2).
  { rewrite Hi2, Hseq1. apply next_rowid_above. }
  split; [lia|].
  split; [by rewrite Hposts2, lookup_insert_ne, Hposts1, lookup_insert_eq
            by lia|].
  split; [by rewrite Hposts2, lookup_insert_eq|].
  split.
  - by rewrite Hfs1, lookup_insert_eq, <- Hfiles1.
  - by rewrite Hfs2, lookup_insert_eq, <- Hfiles2.
Qed.

Lemma same_name_images_collide_witness :
  let r1 := create_post None 10 store_alice two_pictures
              1 "One" "x" "Other" (Some "/a/cat.png") in
  let r2 := create_post None 20 r1.1.2 r1.2
              1 "Two" "y" "Other" (Some "/b/cat.png") in
  image_path <$> posts r2.1.2 !! 1 = Some (Some "post_images/cat.png") ∧
  image_path <$> posts r2.1.2 !! 2 = Some (Some "post_images/cat.png") ∧
  files r1.2 !! "post_images/cat.png" = Some "first" ∧
  files r2.2 !! "post_images/cat.png" = Some "second".
Proof.
  intros r1 r2.
  destruct (same_name_images_collide 10 20 store_alice r1.1.2 r2.1.2
              two_pictures r1.2 r2.2 1 1 1 2
              "One" "x" "Other" "Two" "y" "Other" "/a/cat.png" "/b/cat.png")
    as (_ & H1 & H2 & H3 & H4).
  - discriminate.
  - discriminate.
  - vm_compute. reflexivity.
  - vm_compute. discriminate.
  - apply not_elem_of_empty.
  - vm_compute. eexists. reflexivity.
  - vm_compute. eexists. reflexivity.
  - vm_compute. reflexivity.
  - vm_compute. reflexivity.
  - split; [exact H1|]. split; [exact H2|]. split.
    + transitivity (files two_pictures !! "/a/cat.png");
        [exact H3|vm_compute; reflexivity].
    + transitivity (files r1.2 !! "/b/cat.png");
        [exact H4|vm_compute; reflexivity].
Defined.

(** * The schema *)

Lemma create_table_if_not_exists_lookup (name n : string)
    (cols : list string) (s : gmap string (list string)) :
  create_table_if_not_exists name cols s !! n =
    match s !! n with
    | Some old => Some old
    | None => if decide (name = n) then Some cols else None
    end.
Proof.
  unfold create_table_if_not_exists.
  destruct (s !! name) as [old|] eqn:Hname.
  - destruct (s !! n) as [old'|] eqn:Hn; [done|].
    case_decide; [congruence|done].
  - destruct (decide (name = n)) as [<-|Hne].
    + by rewrite lookup_insert_eq, Hname.
    + rewrite lookup_insert_ne by done. by destruct (s !! n).
Qed.




(** X14: the two failure paths of [create_tables]. A failure of the
    first connection leaves [create_tables], and with it the constructor
    of [Database], as an exception. A failure inside the migration is
    caught and dropped: [create_tables] returns normally, and an old
    [posts] table is left without the [image_path] column. *)
Theorem create_tables_failures (e : exn) (migration_fault : option exn)
    (s : gmap string (list string)) (cols : list string) :
  create_tables (Some e) migration_fault s = Raise e ∧
  (s !! "posts" = Some cols →
   ∃ s', create_tables None (Some e) s = Ok s' ∧
         s' !! "posts" = Some cols ∧
         is_Some (s' !! "users") ∧ is_Some (s' !! "comments")).
Proof.
  split; [done|]. intros Hposts. eexists. split; [reflexivity|].
  unfold migrate_add_image_path. simpl.
  rewrite !create_table_if_not_exists_lookup, Hposts.
  split; [done|]. split.
  - destruct (s !! "users"); by eexists.
  - destruct (s !! "comments"); by eexists.
Qed.

Lemma create_tables_failures_witness :
  ∃ s', create_tables None (Some db_unavailable) old_schema = Ok s' ∧
        s' !! "posts" =
          Some ["post_id"; "user_id"; "title"; "content"; "category";
                "created_at"; "updated_at"].
Proof.
  destruct (create_tables_failures db_unavailable None old_schema
              ["post_id"; "user_id"; "title"; "content"; "category";
               "created_at"; "updated_at"])
    as (_ & Hmig).
  destruct Hmig as (s' & Hrun & Hposts & _); [by vm_compute|].
  exists s'. split; [exact Hrun|exact Hposts].
Defined.

(** * The pages *)

(** ** Signing up and logging in *)

Lemma sql_select_login_None (st : Store) (u hashed : string) :
  (∀ uid r, users st !! uid = Some r → username r = u →
            password r ≠ hashed) →
  sql_select_login st u hashed = None.
Proof.
  intros Hno.
  destruct (sql_select_login st u hashed) as [[uid fn]|] eqn:Hsel; [|done].
  apply sql_select_login_Some in Hsel as (r & Hr & Hu & Hp & _).
  by destruct (Hno uid r Hr Hu).
Qed.

(** The login query on a table that has just received a row under a
    username no other row carries. *)
Lemma sql_select_login_new_row (st : Store) (id : Z) (row : user_row)
    (hashed : string) :
  username_taken st (username row) = false →
  let st' := {| users := <[id := row]> (users st);
                posts := posts st; comments := comments st;
                seq_users := id; seq_posts := seq_posts st;
                seq_comments := seq_comments st |} in
  sql_select_login st' (username row) hashed =
    if decide (password row = hashed) then Some (id, full_name row)
    else None.
Proof.
  intros Hfree st'. apply not_true_iff_false in Hfree.
  rewrite username_taken_spec in Hfree.
  assert (Honly : ∀ uid r, users st' !! uid = Some r →
            username r = username row → uid = id ∧ r = row).
  { intros uid r Hr Hu. simpl in Hr.
    apply lookup_insert_Some in Hr as [[<- <-]|[_ Hold]]; [done|].
    exfalso. apply Hfree. eauto. }
  case_decide as Hpw.
  - destruct (sql_select_login_is_Some st' (username row) hashed id row)
      as [[uid fn] Hsel]; [apply lookup_insert_eq|done|done|].
    rewrite Hsel.
    apply sql_select_login_Some in Hsel as (r & Hr & Hu & _ & <-).
    by destruct (Honly uid r Hr Hu) as [-> ->].
  - apply sql_select_login_None. intros uid r Hr Hu.
    by destruct (Honly uid r Hr Hu) as [_ ->].
Qed.

(** X15: what the sign-up form lets through. If a field is empty (the
    full name, email and username after stripping), or the two passwords
    differ, or the password has fewer than six characters, the handler
    shows an error and touches neither the store nor the page. Otherwise
    the store afterwards is the one [register_user] leaves for the
    stripped full name, email and username and the password as typed,
    and on success the login page is raised. *)
Theorem signup_validation (sha256_hexdigest : string → string)
    (fault : option exn) (now : Z) (st : Store) (app : BlogApp)
    (fe ee ue pw cf : string) :
  let r := signup_clicked sha256_hexdigest fault now st app fe ee ue pw cf in
  let reg := register_user sha256_hexdigest fault now st
               (strip ue) (strip ee) pw (strip fe) in
  ((strip fe = "" ∨ strip ee = "" ∨ strip ue = "" ∨ pw = "" ∨ cf = "" ∨
    pw ≠ cf ∨ (String.length pw < 6)%nat) →
   ∃ msg, r = (showerror "Error" msg, st, Ok app)) ∧
  (strip fe ≠ "" → strip ee ≠ "" → strip ue ≠ "" → pw = cf →
   (6 ≤ String.length pw)%nat →
   r.1.2 = reg.2 ∧
   (reg.1.1 = true →
    r.1.1 = showinfo "Success" "Registration successful!" ∧
    ∃ app', r.2 = Ok app' ∧ active_page app' = Some LoginPage ∧
            current_user app' = current_user app) ∧
   (reg.1.1 = false → r.1.1 = showerror "Error" reg.1.2 ∧ r.2 = Ok app)).
Proof.
  intros r reg. subst r reg. unfold signup_clicked. split.
  - intros Hbad.
    destruct (decide (strip fe = "" ∨ strip ee = "" ∨ strip ue = "" ∨
                      pw = "" ∨ cf = "")) as [Hempty|Hfull].
    { rewrite bool_decide_true by done. by eexists. }
    rewrite bool_decide_false by done.
    destruct (decide (pw ≠ cf)) as [Hne|Heq].
    { rewrite bool_decide_true by done. by eexists. }
    rewrite bool_decide_false by done.
    destruct (decide (String.length pw < 6)%nat) as [Hshort|Hlong].
    { rewrite bool_decide_true by done. by eexists. }
    exfalso. destruct Hbad as [?|[?|[?|[?|[?|[?|?]]]]]]; try done;
      apply Hfull; auto.
  - intros Hf He Hu <- Hlen.
    assert (pw ≠ "") by (intros ->; simpl in Hlen; lia).
    rewrite bool_decide_false by (by intros [?|[?|[?|[?|?]]]]).
    rewrite bool_decide_false by (by intros Hne; apply Hne).
    rewrite bool_decide_false by lia.
    destruct (register_user sha256_hexdigest fault now st
                (strip ue) (strip ee) pw (strip fe))
      as [[[|] msg] st'] eqn:Hreg; simpl.
    + split; [done|]. split; [|done]. intros _.
      apply register_user_true in Hreg as (_ & -> & _). split; [done|].
      rewrite show_frame_not_home by done. by eexists.
    + split; [done|]. split; [done|]. by intros _.
Qed.

(** X16: signing up and then logging in with the same entries. The
    sign-up form stores the digest of the password as typed, the login
    form hashes the stripped password. So after a successful sign-up the
    login with the same username and password is refused with "fill all
    fields" when the password is all white space, succeeds when the
    stripped password has the digest of the typed one (in particular when
    there is nothing to strip), and is refused as invalid otherwise. *)
Theorem signup_then_login (sha256_hexdigest : string → string)
    (now : Z) (st st' : Store) (app app' : BlogApp)
    (fe ee ue pw cf msg : string) :
  signup_clicked sha256_hexdigest None now st app fe ee ue pw cf =
    (showinfo "Success" msg, st', Ok app') →
  login_clicked sha256_hexdigest None st' app' ue pw =
    if decide (strip pw = "") then
      (showerror "Error" "Please fill all fields!", Ok app')
    else if decide (sha256_hexdigest pw = sha256_hexdigest (strip pw)) then
      (showinfo "Success" ("Welcome, " +:+ strip fe +:+ "!"),
       show_frame None st'
         (set_user app' (next_rowid (seq_users st) (users st)) (strip fe))
         HomePage)
    else (showerror "Error" "Invalid username or password!", Ok app').
Proof.
  unfold signup_clicked.
  destruct (decide (strip fe = "" ∨ strip ee = "" ∨ strip ue = "" ∨
                    pw = "" ∨ cf = "")) as [Hempty|Hfull];
    [by rewrite bool_decide_true|rewrite bool_decide_false by done].
  destruct (bool_decide (pw ≠ cf)); [done|].
  destruct (bool_decide (String.length pw < 6)%nat); [done|].
  destruct (register_user sha256_hexdigest None now st
              (strip ue) (strip ee) pw (strip fe))
    as [[[|] m] st1] eqn:Hreg; [|done].
  intros [= -> -> _].
  apply register_user_true in Hreg as (_ & _ & Hfree & _ & ->).
  unfold login_clicked.
  destruct (decide (strip pw = "")) as [Hblank|Hpw].
  { rewrite bool_decide_true by auto. done. }
  rewrite bool_decide_false by (intros [?|?]; [apply Hfull; auto|done]).
  rewrite login_user_ok. unfold hash_password.
  set (row := mk_user (strip ue) (strip ee)
                (sha256_hexdigest pw) (strip fe) now).
  rewrite (sql_select_login_new_row st _ row
             (sha256_hexdigest (strip pw)) Hfree).
  simpl.
  by destruct (decide (sha256_hexdigest pw = sha256_hexdigest (strip pw))).
Qed.

Lemma signup_then_login_witness :
  ∃ st' app',
    signup_clicked demo_digest None 100 empty_store start_app
      "Bob B" "b@x.com" "bob" " secret" " secret" =
      (showinfo "Success" "Registration successful!", st', Ok app') ∧
    login_clicked demo_digest None st' app' "bob" " secret" =
      (showerror "Error" "Invalid username or password!", Ok app').
Proof.
  eexists. eexists. split; [vm_compute; reflexivity|].
  rewrite (signup_then_login demo_digest 100 empty_store _ start_app _
             "Bob B" "b@x.com" "bob" " secret" " secret"
             "Registration successful!");
    [|vm_compute; reflexivity].
  reflexivity.
Defined.

(** X17: the login form sets the current user only from a row of the
    users table. When the handler returns, either the controller is as
    before, or some user row has the stripped username and the digest of
    the stripped password, the current user is that row's id and full
    name, the home page is raised and the welcome names that user. *)
Theorem login_clicked_session (sha256_hexdigest : string → string)
    (fault : option exn) (st : Store) (app app' : BlogApp)
    (ue pe : string) (d : dialog) :
  login_clicked sha256_hexdigest fault st app ue pe = (d, Ok app') →
  (app' = app ∧ ∃ msg, d = showerror "Error" msg) ∨
  ∃ uid r,
    users st !! uid = Some r ∧ username r = strip ue ∧
    password r = sha256_hexdigest (strip pe) ∧
    current_user app' = Some (uid, full_name r) ∧
    active_page app' = Some HomePage ∧
    d = showinfo "Success" ("Welcome, " +:+ full_name r +:+ "!").
Proof.
  unfold login_clicked.
  destruct (bool_decide (strip ue = "" ∨ strip pe = "")).
  { intros [= <- <-]. left. split; [done|]. by eexists. }
  destruct fault as [e|].
  { simpl. intros [= <- <-]. left. split; [done|]. by eexists. }
  rewrite login_user_ok.
  destruct (sql_select_login st (strip ue)
              (hash_password sha256_hexdigest (strip pe)))
    as [[uid fn]|] eqn:Hsel.
  - rewrite show_frame_ok. intros [= <- <-]. right.
    apply sql_select_login_Some in Hsel as (r & Hr & Hu & Hp & <-).
    by exists uid, r.
  - intros [= <- <-]. left. split; [done|]. by eexists.
Qed.

Lemma login_clicked_session_witness :
  ∃ app', login_clicked demo_digest None store_alice start_app
            "  alice " "secret1" =
            (showinfo "Success" "Welcome, Alice A!", Ok app') ∧
          current_user app' = Some (1, "Alice A").
Proof.
  eexists. split; [vm_compute; reflexivity|].
  destruct (login_clicked_session demo_digest None store_alice start_app _
              "  alice " "secret1" _ eq_refl)
    as [[_ [msg Hd]]|(uid & r & Hr & _ & _ & Hcur & _)].
  - vm_compute in Hd. discriminate Hd.
  - vm_compute. reflexivity.
Defined.

(** ** Writing a post *)

Lemma create_post_true_payload (fault : option exn) (now : Z)
    (st st' : Store) (fs fs' : FS) (uid : Z) (t c cat : string)
    (image : option string) (payload : create_payload) :
  create_post fault now st fs uid t c cat image =
    ((true, payload), st', fs') →
  ∃ pid, payload = CreatedId pid.
Proof.
  unfold create_post.
  destruct (mkdir_exist_ok fs img_dir) as [fs1|]; [|done].
  destruct (match truthy image with Some _ => _ | None => _ end)
    as [[stored fs2]|]; [|done].
  destruct fault; [done|]. simpl. intros [= <- _ _]. by eexists.
Qed.

(** X18: a post written on the "new post" page. When the handler reports
    success for a logged-in user who has a user row, the three texts were
    not blank, the post is stored under a new id for that user with the
    stripped texts, the page's image selection is cleared, the home page
    is raised with the user still logged in, and the home page lists the
    new post with the author's names. *)
Theorem post_clicked_lands_on_home (now : Z) (st st' : Store) (fs fs' : FS)
    (app app' : BlogApp) (image image' : option string)
    (te cv ct : string) (uid : Z) (name : string) (u : user_row) :
  current_user app = Some (uid, name) →
  users st !! uid = Some u →
  post_clicked None now st fs app image te cv ct =
    (showinfo "Success" "Post created successfully!", st', fs', Ok app',
     image') →
  strip te ≠ "" ∧ strip cv ≠ "" ∧ strip ct ≠ "" ∧
  image' = None ∧
  active_page app' = Some HomePage ∧ current_user app' = Some (uid, name) ∧
  ∃ pid img,
    posts st !! pid = None ∧
    posts st' !! pid =
      Some (mk_post uid (strip te) (strip ct) (strip cv) img now now) ∧
    mk_listing pid (strip te) (strip ct) (strip cv) now
               (username u) (full_name u) img ∈ home_posts app'.
Proof.
  intros Hcur Hu. unfold post_clicked. rewrite Hcur.
  destruct (decide (strip te = "" ∨ strip cv = "" ∨ strip ct = ""))
    as [Hblank|Hfull];
    [by rewrite bool_decide_true|rewrite bool_decide_false by done].
  destruct (create_post None now st fs uid (strip te) (strip ct) (strip cv)
              image) as [[[[|] payload] st1] fs1] eqn:Hrun; [|done].
  rewrite show_frame_ok. intros [= <- <- <- <-].
  destruct (create_post_true_payload _ _ _ _ _ _ _ _ _ _ _ _ Hrun)
    as [pid ->].
  apply create_post_true in Hrun as (_ & -> & img & _ & ->).
  split; [by intros ?; apply Hfull; auto|].
  split; [by intros ?; apply Hfull; auto|].
  split; [by intros ?; apply Hfull; auto|].
  split; [done|]. split; [done|]. split; [done|].
  exists (next_rowid (seq_posts st) (posts st)), img.
  split; [apply next_rowid_fresh|]. simpl.
  split; [apply lookup_insert_eq|].
  apply elem_of_select_all_posts.
  eexists _, _, u. simpl. split; [apply lookup_insert_eq|]. by split.
Qed.

Lemma post_clicked_lands_on_home_witness :
  let app1 := {| current_user := Some (1, "Alice A");
                 stacking := tkraise HomePage (stacking start_app);
                 home_posts := sql_select_all_posts store_alice_post |} in
  ∃ pid img,
    posts store_alice_post !! pid =
      Some (mk_post 1 "Hi" "Body text" "Technology" img 101 101) ∧
    mk_listing pid "Hi" "Body text" "Technology" 101 "alice" "Alice A" img
      ∈ home_posts app1.
Proof.
  intros app1.
  destruct (post_clicked_lands_on_home 101 store_alice store_alice_post
              no_files (mk_fs ∅ {[ img_dir ]} false)
              (set_user start_app 1 "Alice A") app1 None None
              " Hi " "Technology" "  Body text " 1 "Alice A"
              (mk_user "alice" "a@x.com" (demo_digest "secret1")
                       "Alice A" 100))
    as (_ & _ & _ & _ & _ & _ & pid & img & _ & Hpost & Hin).
  - reflexivity.
  - vm_compute. reflexivity.
  - vm_compute. reflexivity.
  - exists pid, img. split; [exact Hpost|exact Hin].
Defined.

(** ** The "My Posts" page *)

Lemma elem_of_select_user_posts (st : Store) (uid : Z) (row : user_post) :
  row ∈ sql_select_user_posts st uid ↔
  ∃ pid p, posts st !! pid = Some p ∧ post_user_id p = uid ∧
           row = user_post_of pid p.
Proof.
  unfold sql_select_user_posts.
  rewrite elem_of_order_by_desc, list_elem_of_fmap. split.
  - intros ([pid p] & -> & Hin).
    apply list_elem_of_filter in Hin as [Hu Hin].
    apply elem_of_map_to_list in Hin. by exists pid, p.
  - intros (pid & p & Hp & Hu & ->). exists (pid, p).
    split; [done|]. apply list_elem_of_filter.
    split; [done|]. by apply elem_of_map_to_list.
Qed.

(** X19: [MyPostsPage.load_posts] unpacks each row of [get_user_posts]
    into five names, and the rows have six columns. So for a logged-in
    user who owns at least one post the method raises [ValueError] before
    it has built a single widget, and the frame is left empty; for a
    logged-in user without posts it shows the "no posts" label, and
    without a user the "please log in" label. *)
Theorem my_posts_load_outcome (st : Store) (uid : Z) (name : string) :
  my_posts_load None st None = ([PleaseLogIn], None) ∧
  ((∃ pid p, posts st !! pid = Some p ∧ post_user_id p = uid) →
   ∃ msg, my_posts_load None st (Some (uid, name)) =
            ([], Some (ValueError msg))) ∧
  ((∀ pid p, posts st !! pid = Some p → post_user_id p ≠ uid) →
   my_posts_load None st (Some (uid, name)) = ([NoPostsYet], None)).
Proof.
  split; [done|]. unfold my_posts_load. simpl. split.
  - intros (pid & p & Hp & Hu).
    destruct (sql_select_user_posts st uid) as [|row rows] eqn:Hrows.
    + exfalso.
      assert (user_post_of pid p ∈ sql_select_user_posts st uid) as Hin
        by (apply elem_of_select_user_posts; eauto).
      rewrite Hrows in Hin. by apply elem_of_nil in Hin.
    + simpl. by eexists.
  - intros Hnone.
    destruct (sql_select_user_posts st uid) as [|row rows] eqn:Hrows;
      [done|].
    exfalso.
    assert (row ∈ sql_select_user_posts st uid) as Hin
      by (rewrite Hrows; apply list_elem_of_here).
    apply elem_of_select_user_posts in Hin as (pid & p & Hp & Hu & _).
    by eapply Hnone.
Qed.

(** ** The home page *)

Lemma string_length_app (a b : string) :
  String.length (a +:+ b) = (String.length a + String.length b)%nat.
Proof.
  induction a as [|c a IH]; [done|].
  change (S (String.length (a +:+ b)) =
          S (String.length a + String.length b)).
  by rewrite IH.
Qed.

Lemma string_length_prefix (n : nat) (s : string) :
  (n ≤ String.length s)%nat →
  String.length (String.substring 0 n s) = n.
Proof.
  revert s. induction n as [|n IH]; intros s Hn.
  - by destruct s.
  - destruct s as [|c s]; simpl in *; [lia|].
    rewrite IH; [done|lia].
Qed.

Lemma substring_prefix (n : nat) (s : string) :
  ∃ rest, s = String.substring 0 n s +:+ rest.
Proof.
  revert s. induction n as [|n IH]; intros s.
  - exists s. by destruct s.
  - destruct s as [|c s]; [by exists ""|].
    destruct (IH s) as [rest Hrest]. exists rest.
    change (String c s = String c (String.substring 0 n s +:+ rest)).
    by rewrite <- Hrest.
Qed.

(** X20: the preview of a post on the home page is the content itself
    when that has at most 200 characters, and otherwise the first 200
    characters of the content followed by three dots, 203 characters in
    all; it never has more than 203 characters. *)
Theorem preview_bound (content : string) :
  (String.length (preview content) ≤ 203)%nat ∧
  ((String.length content ≤ 200)%nat → preview content = content) ∧
  ((200 < String.length content)%nat →
   String.length (preview content) = 203%nat ∧
   ∃ first rest, preview content = first +:+ "..." ∧
                 content = first +:+ rest ∧
                 String.length first = 200%nat).
Proof.
  unfold preview.
  destruct (decide (200 < String.length content)%nat) as [Hlong|Hshort].
  - rewrite bool_decide_true by done.
    pose proof (string_length_prefix 200 content) as Hlen.
    rewrite string_length_app, Hlen by lia.
    split; [simpl; lia|]. split; [lia|]. intros _. split; [done|].
    destruct (substring_prefix 200 content) as [rest Hrest].
    exists (String.substring 0 200 content), rest.
    split; [done|]. split; [done|]. apply Hlen. lia.
  - rewrite bool_decide_false by done.
    split; [lia|]. split; [done|]. lia.
Qed.

(** ** The tree page and the gallery *)

Lemma head_filter_newest {A : Type} (key : A → Z) (P : A → Prop)
    `{∀ x, Decision (P x)} (l : list A) (x : A) :
  newest_first key l → x ∈ l → P x →
  ∃ y, head (filter P l) = Some y ∧ y ∈ l ∧ P y ∧ key x ≤ key y.
Proof.
  unfold newest_first. induction l as [|z l IH]; intros Hs Hin Hx.
  - by apply elem_of_nil in Hin.
  - apply StronglySorted_cons in Hs as [Hz Hl].
    rewrite filter_cons. destruct (decide (P z)) as [Hpz|Hnz].
    + exists z. split; [done|]. split; [apply list_elem_of_here|].
      split; [done|].
      apply elem_of_cons in Hin as [->|Hin]; [done|].
      by apply (proj1 (Forall_forall _ _) Hz).
    + apply elem_of_cons in Hin as [->|Hin]; [done|].
      destruct (IH Hl Hin Hx) as (y & Hhd & Hy & Hpy & Hle).
      exists y. split; [done|]. split; [by apply list_elem_of_further|done].
Qed.

(** X21: a tree item carries a post's title and not its id, and a
    double click looks the title up in the list of all posts. So for
    every listed post, the double click on its item opens a listed post
    with the same title that is at least as new; when no other listed
    post has that title it is the post itself, and when one created later
    has it, the later one is opened in its place. *)
Theorem double_click_opens_newest (st : Store) (row : post_listing) :
  ∃ all, get_all_posts None st = Ok all ∧
    (row ∈ all →
     ∃ opened, double_click_opens all (pl_title row) =
                 Some (pl_post_id opened) ∧
               opened ∈ all ∧ pl_title opened = pl_title row ∧
               pl_created_at row ≤ pl_created_at opened ∧
               ((∀ other, other ∈ all → pl_title other = pl_title row →
                          other = row) → opened = row) ∧
               (∀ other, other ∈ all → pl_title other = pl_title row →
                         pl_created_at row < pl_created_at other →
                         opened ≠ row)).
Proof.
  exists (sql_select_all_posts st). split; [done|]. intros Hin.
  destruct (head_filter_newest pl_created_at
              (λ r, pl_title r = pl_title row) (sql_select_all_posts st) row)
    as (opened & Hhd & Hopened & Htitle & Hle);
    [apply order_by_desc_sorted|done|done|].
  exists opened. unfold double_click_opens. rewrite Hhd.
  split; [done|]. split; [done|]. split; [done|]. split; [done|]. split.
  - intros Honly. by apply Honly.
  - intros other Hother Ht Hlt ->.
    destruct (head_filter_newest pl_created_at
                (λ r, pl_title r = pl_title row) (sql_select_all_posts st)
                other)
      as (opened' & Hhd' & _ & _ & Hle');
      [apply order_by_desc_sorted|done|done|].
    rewrite Hhd in Hhd'. injection Hhd' as <-. lia.
Qed.

Lemma gallery_rows_spec (fs : FS) (rows : list post_listing)
    (row : post_listing) (p : string) :
  (row, p) ∈ gallery_rows fs rows ↔
  row ∈ rows ∧ pl_image_path row = Some p ∧ p ≠ "" ∧
  path_exists fs p = true.
Proof.
  unfold gallery_rows. rewrite list_elem_of_omap. split.
  - intros (r & Hr & Hsome). unfold truthy in Hsome.
    destruct (pl_image_path r) as [q|] eqn:Himg; [|done].
    destruct (decide (q = "")) as [->|Hq];
      [by rewrite bool_decide_true in Hsome|].
    rewrite bool_decide_false in Hsome by done. simpl in Hsome.
    destruct (path_exists fs q) eqn:Hex; [|done].
    by injection Hsome as -> ->.
  - intros (Hr & Himg & Hp & Hex). exists row. split; [done|].
    unfold truthy. rewrite Himg, bool_decide_false by done. simpl.
    by rewrite Hex.
Qed.

(** X22: the gallery. Whatever line of the listbox is selected,
    [view_selected_post] opens nothing or a listed post that has an image
    reference naming a file that was on disk when the gallery was
    loaded, and the selected line shows that post's title and author.
    When no listed post has such an image, the listbox holds the one line
    "No posts with images yet!" and no selection opens anything. *)
Theorem gallery_selection (fs : FS) (rows : list post_listing)
    (index : nat) :
  let g := load_gallery fs rows in
  (∀ pid, view_selected_post g.2 index = Some pid →
     ∃ row p, row ∈ rows ∧ pl_post_id row = pid ∧
              pl_image_path row = Some p ∧ path_exists fs p = true ∧
              g.1 !! index =
                Some (pl_title row +:+ " - by " +:+ pl_username row) ∧
              g.2 !! index = Some (pid, pl_title row, p)) ∧
  (gallery_rows fs rows = [] →
   g.1 = ["No posts with images yet!"] ∧
   view_selected_post g.2 index = None).
Proof.
  intros g. subst g. unfold load_gallery, view_selected_post. simpl. split.
  - intros pid.
    destruct (bool_decide (0 < length _)%nat); [|done].
    destruct (bool_decide (index < length _)%nat); [|done].
    rewrite list_lookup_fmap.
    destruct (gallery_rows fs rows !! index) as [[row p]|] eqn:Hlook;
      [|done].
    simpl. intros [= <-].
    assert ((row, p) ∈ gallery_rows fs rows) as Hin
      by (apply list_elem_of_lookup; eauto).
    apply gallery_rows_spec in Hin as (Hrow & Himg & _ & Hex).
    exists row, p.
    split; [done|]. split; [done|]. split; [done|]. split; [done|]. split.
    + destruct (gallery_rows fs rows) as [|x l] eqn:Hg;
        [by rewrite lookup_nil in Hlook|].
      rewrite bool_decide_false by done.
      by rewrite list_lookup_fmap, Hlook.
    + done.
  - by intros ->.
Qed.

(** * The application as the user drives it *)

Lemma integrity_insert_user (st : Store) (id seq : Z) (row : user_row) :
  referential_integrity st →
  referential_integrity
    {| users := <[id := row]> (users st); posts := posts st;
       comments := comments st; seq_users := seq;
       seq_posts := seq_posts st; seq_comments := seq_comments st |}.
Proof.
  intros [Hp Hc].
  assert (Hkeep : ∀ i, is_Some (users st !! i) →
                       is_Some (<[id := row]> (users st) !! i)).
  { intros i Hi. apply lookup_insert_is_Some.
    destruct (decide (id = i)); [by left|by right]. }
  split.
  - intros pid p Hpid. simpl in *. apply Hkeep. by eapply Hp.
  - intros cid c Hcid. simpl in *.
    destruct (Hc cid c Hcid) as [? ?]. split; [done|by apply Hkeep].
Qed.

Lemma integrity_insert_post (st : Store) (id seq : Z) (row : post_row) :
  referential_integrity st →
  is_Some (users st !! post_user_id row) →
  referential_integrity
    {| users := users st; posts := <[id := row]> (posts st);
       comments := comments st; seq_users := seq_users st;
       seq_posts := seq; seq_comments := seq_comments st |}.
Proof.
  intros [Hp Hc] Hu. split.
  - apply map_Forall_insert_2; [done|exact Hp].
  - intros cid c Hcid. simpl in *.
    destruct (Hc cid c Hcid) as [? ?]. split; [|done].
    apply lookup_insert_is_Some.
    destruct (decide (id = comment_post_id c)); [by left|by right].
Qed.

Lemma integrity_insert_comment (st : Store) (id seq : Z)
    (row : comment_row) :
  referential_integrity st →
  is_Some (posts st !! comment_post_id row) →
  is_Some (users st !! comment_user_id row) →
  referential_integrity
    {| users := users st; posts := posts st;
       comments := <[id := row]> (comments st);
       seq_users := seq_users st; seq_posts := seq_posts st;
       seq_comments := seq |}.
Proof.
  intros [Hp Hc] Hpost Hu. split; [exact Hp|].
  apply map_Forall_insert_2; [done|exact Hc].
Qed.

Lemma register_user_store (sha256_hexdigest : string → string)
    (fault : option exn) (now : Z) (st : Store) (u e pw fn : string) :
  let st' := (register_user sha256_hexdigest fault now st u e pw fn).2 in
  (referential_integrity st → referential_integrity st') ∧
  (∀ i, is_Some (users st !! i) → is_Some (users st' !! i)) ∧
  posts st' = posts st.
Proof.
  destruct (register_user_users sha256_hexdigest fault now st u e pw fn)
    as [Hsame|(Hu & He & _)].
  { simpl. by rewrite Hsame. }
  destruct fault as [err|]; [by destruct err|].
  unfold register_user, sql_insert_user. simpl. rewrite Hu, He. simpl.
  split; [apply integrity_insert_user|]. split; [|done].
  intros i Hi. apply lookup_insert_is_Some.
  destruct (decide (next_rowid (seq_users st) (users st) = i));
    [by left|by right].
Qed.

Lemma create_post_store (fault : option exn) (now : Z) (st : Store)
    (fs : FS) (uid : Z) (t c cat : string) (image : option string) :
  let st' := (create_post fault now st fs uid t c cat image).1.2 in
  (referential_integrity st → is_Some (users st !! uid) →
   referential_integrity st') ∧
  users st' = users st ∧
  (∀ i, is_Some (posts st !! i) → is_Some (posts st' !! i)).
Proof.
  unfold create_post.
  destruct (mkdir_exist_ok fs img_dir) as [fs1|]; [|done].
  destruct (match truthy image with Some _ => _ | None => _ end)
    as [[stored fs2]|]; [|done].
  destruct fault; [done|]. simpl.
  split; [by intros; apply integrity_insert_post|]. split; [done|].
  intros i Hi. apply lookup_insert_is_Some.
  destruct (decide (next_rowid (seq_posts st) (posts st) = i));
    [by left|by right].
Qed.

Lemma my_posts_load_no_user (st : Store) (pid t c d : pyval) :
  OwnPost pid t c d ∉ (my_posts_load None st None).1.
Proof.
  simpl. intros Hin. apply list_elem_of_singleton in Hin. discriminate Hin.
Qed.

Lemma existsb_is_own_post_false (pid : Z) (ws : list my_posts_widget) :
  (∀ p t c d, OwnPost p t c d ∉ ws) → existsb (is_own_post pid) ws = false.
Proof.
  intros Hnone. induction ws as [|w ws IH]; [done|]. simpl.
  rewrite IH.
  - destruct w as [| |p t c d]; try done.
    exfalso. apply (Hnone p t c d), list_elem_of_here.
  - intros p t c d Hin. apply (Hnone p t c d). by apply list_elem_of_further.
Qed.

Lemma login_clicked_effect (sha256_hexdigest : string → string)
    (st : Store) (app : BlogApp) (ue pe : string) :
  ∃ app', (login_clicked sha256_hexdigest None st app ue pe).2 = Ok app' ∧
          (current_user app' = current_user app ∨
           ∃ uid name, current_user app' = Some (uid, name) ∧
                       is_Some (users st !! uid)).
Proof.
  unfold login_clicked.
  destruct (bool_decide (strip ue = "" ∨ strip pe = ""));
    [by exists app; split; [|left]|].
  rewrite login_user_ok.
  destruct (sql_select_login st (strip ue) _) as [[uid fn]|] eqn:Hsel;
    [|by exists app; split; [|left]].
  rewrite show_frame_ok. eexists. split; [done|]. right. simpl.
  apply sql_select_login_Some in Hsel as (r & Hr & _).
  exists uid, fn. split; [done|]. by exists r.
Qed.

Lemma signup_clicked_effect (sha256_hexdigest : string → string)
    (now : Z) (st : Store) (app : BlogApp) (fe ee ue pw cf : string) :
  let r := signup_clicked sha256_hexdigest None now st app fe ee ue pw cf in
  (r.1.2 = st ∨
   r.1.2 = (register_user sha256_hexdigest None now st
              (strip ue) (strip ee) pw (strip fe)).2) ∧
  ∃ app', r.2 = Ok app' ∧ current_user app' = current_user app.
Proof.
  unfold signup_clicked.
  destruct (bool_decide (_ ∨ _)); [by split; [left|exists app]|].
  destruct (bool_decide (pw ≠ cf)); [by split; [left|exists app]|].
  destruct (bool_decide (_ < _)%nat); [by split; [left|exists app]|].
  destruct (register_user _ _ _ _ _ _ _ _) as [[[|] msg] st']; simpl.
  - split; [by right|]. rewrite show_frame_not_home by done. by eexists.
  - split; [by right|]. by exists app.
Qed.

Lemma post_clicked_effect (now : Z) (st : Store) (fs : FS) (app : BlogApp)
    (image : option string) (te cv ct : string) :
  let r := post_clicked None now st fs app image te cv ct in
  (r.1.1.1.2 = st ∨
   ∃ uid name t c cat,
     current_user app = Some (uid, name) ∧
     r.1.1.1.2 = (create_post None now st fs uid t c cat image).1.2) ∧
  ∃ app', r.1.2 = Ok app' ∧ current_user app' = current_user app.
Proof.
  unfold post_clicked.
  destruct (current_user app) as [[uid name]|] eqn:Hcur;
    [|by split; [left|exists app]].
  destruct (bool_decide (_ ∨ _)); [by split; [left|exists app]|].
  destruct (create_post None now st fs uid (strip te) (strip ct) (strip cv)
              image) as [[[[|] payload] st'] fs'] eqn:Hrun; simpl.
  - split.
    + right. exists uid, name, (strip te), (strip ct), (strip cv).
      by rewrite Hrun.
    + rewrite show_frame_ok. by eexists.
  - split; [|by exists app].
    right. exists uid, name, (strip te), (strip ct), (strip cv).
    by rewrite Hrun.
Qed.

Lemma open_post_effect (s : Screen) (pid : Z) :
  ∃ app', open_post s pid =
            mk_screen (scr_store s) (scr_fs s) app' (scr_my_posts s)
              (Some pid)
              (comment_box_after_load (scr_store s)
                 (current_user (scr_app s)) pid)
              (scr_gallery s) ∧
          current_user app' = current_user (scr_app s).
Proof.
  unfold open_post. rewrite show_frame_ok. simpl. by eexists.
Qed.

Lemma comment_box_post_exists (st : Store) (user : option (Z * string))
    (pid : Z) :
  comment_box_after_load st user pid = true → is_Some (posts st !! pid).
Proof.
  unfold comment_box_after_load, sql_select_post_details.
  intros [Hfound _]%andb_true_iff. apply bool_decide_eq_true in Hfound.
  destruct (posts st !! pid) as [p|]; [by eexists|].
  by destruct Hfound.
Qed.

Section Screen_facts.
Variable sha256_hexdigest : string → string.

Lemma press_invariant (now : Z) (s : Screen) (ev : event) :
  screen_invariant s → screen_invariant (press sha256_hexdigest now s ev).
Proof.
  intros Hinv. pose proof Hinv as (Hint & Huser & Hbox & Hown).
  destruct ev as [ue pe|fe ee ue pw cf| |page|image te cv ct|pid| |index|text
                 |entry|pid confirmed]; cbn [press].
  - destruct (login_clicked_effect sha256_hexdigest (scr_store s)
                (scr_app s) ue pe) as (app' & -> & Hcur).
    split; [done|]. split; [|done]. simpl. intros uid name Happ.
    destruct Hcur as [Hcur|(uid' & name' & Hcur & Hex)];
      rewrite Hcur in Happ; [by eapply Huser|].
    by injection Happ as <- <-.
  - pose proof (signup_clicked_effect sha256_hexdigest now (scr_store s)
                  (scr_app s) fe ee ue pw cf) as [Hst (app' & Happ & Hcur)].
    simpl in Hst, Happ. rewrite Happ. simpl.
    pose proof (register_user_store sha256_hexdigest None now (scr_store s)
                  (strip ue) (strip ee) pw (strip fe))
      as (Hri & Husers & Hposts).
    simpl in Hri, Husers, Hposts.
    destruct Hst as [->| ->].
    { split; [done|]. split; [|done]. simpl.
      intros uid name Hu. rewrite Hcur in Hu. by eapply Huser. }
    split; [by apply Hri|]. split; [|split; [|done]]; simpl.
    + intros uid name Hu. rewrite Hcur in Hu.
      apply Husers. by eapply Huser.
    + intros pid Hid Hb. rewrite Hposts. by apply Hbox.
  - unfold logout. rewrite show_frame_not_home by done. simpl.
    split; [done|]. split; [by intros ? ? ?|]. by split.
  - rewrite show_frame_ok. simpl.
    split; [done|]. split; [done|]. by split.
  - pose proof (post_clicked_effect now (scr_store s) (scr_fs s)
                  (scr_app s) image te cv ct) as [Hst (app' & Happ & Hcur)].
    simpl in Hst, Happ. rewrite Happ. simpl.
    destruct Hst as [->|(uid & name & t & c & cat & Hu & ->)].
    { split; [done|]. split; [|done]. simpl.
      intros uid name Hu'. rewrite Hcur in Hu'. by eapply Huser. }
    pose proof (create_post_store None now (scr_store s) (scr_fs s)
                  uid t c cat image) as (Hri & Husers & Hposts).
    simpl in Hri, Husers, Hposts.
    split; [apply Hri; [done|by eapply Huser]|].
    split; [|split; [|done]]; simpl.
    + intros uid' name' Hu'. rewrite Hcur in Hu'. rewrite Husers.
      by eapply Huser.
    + intros pid Hid Hb. apply Hposts. by apply Hbox.
  - destruct (bool_decide _); [|done].
    destruct (open_post_effect s pid) as (app' & -> & Hcur).
    split; [done|]. split; [|split; [|done]]; simpl.
    + intros uid name Hu. rewrite Hcur in Hu. by eapply Huser.
    + intros pid' [= <-] Hb. by eapply comment_box_post_exists.
  - done.
  - destruct (view_selected_post (scr_gallery s) index) as [pid|]; [|done].
    destruct (open_post_effect s pid) as (app' & -> & Hcur).
    split; [done|]. split; [|split; [|done]]; simpl.
    + intros uid name Hu. rewrite Hcur in Hu. by eapply Huser.
    + intros pid' [= <-] Hb. by eapply comment_box_post_exists.
  - destruct (double_click_opens _ text) as [pid|]; [|done].
    destruct (open_post_effect s pid) as (app' & -> & Hcur).
    split; [done|]. split; [|split; [|done]]; simpl.
    + intros uid name Hu. rewrite Hcur in Hu. by eapply Huser.
    + intros pid' [= <-] Hb. by eapply comment_box_post_exists.
  - destruct (scr_comment_box s) eqn:Hb; [|exact Hinv].
    destruct (scr_post_id s) as [pid|] eqn:Hpid; [|exact Hinv].
    destruct (current_user (scr_app s)) as [[uid name]|] eqn:Hcur;
      [|exact Hinv].
    destruct (bool_decide (strip entry = "")); [exact Hinv|].
    split; [|split; [|split; [|done]]]; simpl.
    + apply integrity_insert_comment; simpl;
        [done|by apply Hbox|by eapply Huser].
    + intros uid' name' Hu'. rewrite Hcur in Hu'. by eapply Huser.
    + intros pid' [= <-] _. by apply Hbox.
  - rewrite existsb_is_own_post_false by done. exact Hinv.
Qed.

Lemma presses_invariant (s : Screen) (evs : list (Z * event)) :
  screen_invariant s → screen_invariant (presses sha256_hexdigest s evs).
Proof.
  revert s. induction evs as [|[now ev] evs IH]; intros s Hinv; [done|].
  simpl. apply IH. by apply press_invariant.
Qed.
End Screen_facts.

Lemma insert_keeps_is_Some {A : Type} (t : gmap Z A) (id i : Z) (x : A) :
  is_Some (t !! i) → is_Some (<[id := x]> t !! i).
Proof.
  intros Hi. apply lookup_insert_is_Some.
  destruct (decide (id = i)); [by left|by right].
Qed.

(** Every operation but [delete_post] keeps all the rows there are. *)
Lemma run_op_grows (sha256_hexdigest : string → string)
    (fault : option exn) (now : Z) (fs : FS) (st : Store) (o : op) :
  (∀ pid, o ≠ DeletePost pid) →
  let st' := run_op sha256_hexdigest fault now fs st o in
  (∀ i, is_Some (users st !! i) → is_Some (users st' !! i)) ∧
  (∀ i, is_Some (posts st !! i) → is_Some (posts st' !! i)) ∧
  (∀ i, is_Some (comments st !! i) → is_Some (comments st' !! i)).
Proof.
  intros Hnodel.
  destruct o as [u e pw fn|uid t c cat image|pid t c cat|pid|pid uid txt];
    simpl.
  - destruct fault as [err|]; [by destruct err|].
    unfold register_user, sql_insert_user. simpl.
    destruct (username_taken st u); [done|].
    destruct (email_taken st e); [done|]. simpl.
    split; [by intros; apply insert_keeps_is_Some|done].
  - unfold create_post.
    destruct (mkdir_exist_ok fs img_dir) as [fs1|]; [|done].
    destruct (match truthy image with Some _ => _ | None => _ end)
      as [[stored fs2]|]; [|done].
    destruct fault; [done|]. simpl.
    split; [done|]. split; [by intros; apply insert_keeps_is_Some|done].
  - destruct fault; [done|]. simpl. split; [done|]. split; [|done].
    intros i [p Hp]. destruct (decide (i = pid)) as [->|Hne].
    + rewrite lookup_alter_eq, Hp. by eexists.
    + rewrite lookup_alter_ne by done. by eexists.
  - by destruct (Hnodel pid).
  - destruct fault; [done|]. simpl. split; [done|]. split; [done|].
    by intros; apply insert_keeps_is_Some.
Qed.

Section Screen_growth.
Variable sha256_hexdigest : string → string.

Lemma press_grows (now : Z) (s : Screen) (ev : event) :
  scr_my_posts s = [PleaseLogIn] →
  let s' := press sha256_hexdigest now s ev in
  scr_my_posts s' = [PleaseLogIn] ∧
  (∀ i, is_Some (users (scr_store s) !! i) →
        is_Some (users (scr_store s') !! i)) ∧
  (∀ i, is_Some (posts (scr_store s) !! i) →
        is_Some (posts (scr_store s') !! i)) ∧
  (∀ i, is_Some (comments (scr_store s) !! i) →
        is_Some (comments (scr_store s') !! i)).
Proof.
  intros Hmy.
  assert (Hsame : scr_my_posts s = [PleaseLogIn] ∧
    (∀ i, is_Some (users (scr_store s) !! i) →
          is_Some (users (scr_store s) !! i)) ∧
    (∀ i, is_Some (posts (scr_store s) !! i) →
          is_Some (posts (scr_store s) !! i)) ∧
    (∀ i, is_Some (comments (scr_store s) !! i) →
          is_Some (comments (scr_store s) !! i))) by done.
  destruct ev as [ue pe|fe ee ue pw cf| |page|image te cv ct|pid| |index|text
                 |entry|pid confirmed]; cbn [press].
  - by destruct (login_clicked_effect sha256_hexdigest (scr_store s)
                   (scr_app s) ue pe) as (app' & -> & _).
  - pose proof (signup_clicked_effect sha256_hexdigest now (scr_store s)
                  (scr_app s) fe ee ue pw cf) as [Hst (app' & Happ & _)].
    simpl in Hst, Happ. rewrite Happ. simpl.
    destruct Hst as [->| ->]; [done|]. split; [done|].
    by apply (run_op_grows sha256_hexdigest None now (scr_fs s)
                (scr_store s) (RegisterUser (strip ue) (strip ee) pw
                                            (strip fe))).
  - unfold logout. by rewrite show_frame_not_home.
  - by rewrite show_frame_ok.
  - pose proof (post_clicked_effect now (scr_store s) (scr_fs s)
                  (scr_app s) image te cv ct) as [Hst (app' & Happ & _)].
    simpl in Hst, Happ. rewrite Happ. simpl.
    destruct Hst as [->|(uid & name & t & c & cat & _ & ->)]; [done|].
    split; [done|].
    by apply (run_op_grows sha256_hexdigest None now (scr_fs s)
                (scr_store s) (CreatePost uid t c cat image)).
  - destruct (bool_decide _); [|done].
    by destruct (open_post_effect s pid) as (app' & -> & _).
  - done.
  - destruct (view_selected_post (scr_gallery s) index) as [pid|]; [|done].
    by destruct (open_post_effect s pid) as (app' & -> & _).
  - destruct (double_click_opens _ text) as [pid|]; [|done].
    by destruct (open_post_effect s pid) as (app' & -> & _).
  - destruct (scr_comment_box s); [|done].
    destruct (scr_post_id s) as [pid|]; [|done].
    destruct (current_user (scr_app s)) as [[uid name]|]; [|done].
    destruct (bool_decide (strip entry = "")); [done|].
    split; [done|].
    by apply (run_op_grows sha256_hexdigest None now (scr_fs s)
                (scr_store s) (AddComment pid uid (strip entry))).
  - by rewrite Hmy.
Qed.

Lemma presses_grow (s : Screen) (evs : list (Z * event)) :
  scr_my_posts s = [PleaseLogIn] →
  let s' := presses sha256_hexdigest s evs in
  scr_my_posts s' = [PleaseLogIn] ∧
  (∀ i, is_Some (users (scr_store s) !! i) →
        is_Some (users (scr_store s') !! i)) ∧
  (∀ i, is_Some (posts (scr_store s) !! i) →
        is_Some (posts (scr_store s') !! i)) ∧
  (∀ i, is_Some (comments (scr_store s) !! i) →
        is_Some (comments (scr_store s') !! i)).
Proof.
  revert s. induction evs as [|[now ev] evs IH]; intros s Hmy; [done|].
  destruct (press_grows now s ev Hmy) as (Hmy' & Hu & Hp & Hc).
  destruct (IH _ Hmy') as (Hmy'' & Hu' & Hp' & Hc').
  simpl. split; [done|]. repeat split; intros i Hi; eauto.
Qed.
End Screen_growth.

(** X23: through the pages the store keeps its references. Started on a
    database whose posts and comments refer to existing rows, the
    application, with a working store, reaches after any sequence of
    events only stores in which every post has its owner and every
    comment its post and author; and the user logged in, if any, has a
    user row. *)
Theorem pages_keep_integrity (sha256_hexdigest : string → string)
    (st : Store) (fs : FS) (evs : list (Z * event)) :
  referential_integrity st →
  let s := presses sha256_hexdigest (start_screen st fs) evs in
  referential_integrity (scr_store s) ∧
  (∀ uid name, current_user (scr_app s) = Some (uid, name) →
               is_Some (users (scr_store s) !! uid)).
Proof.
  intros Hint s.
  assert (Hinv : screen_invariant s).
  { apply presses_invariant. split; [done|]. split; [done|].
    split; [done|]. intros pid t c d. apply my_posts_load_no_user. }
  by destruct Hinv as (? & ? & _).
Qed.

Lemma pages_keep_integrity_witness :
  referential_integrity
    (scr_store
       (presses demo_digest (start_screen empty_store no_files)
          [(100, SignupClicked "Alice A" "a@x.com" "alice" "secret1"
                   "secret1");
           (101, LoginClicked "alice" "secret1");
           (102, PostClicked None "Hi" "Technology" "Body text");
           (103, ReadMoreClicked 1);
           (104, CommentClicked "Nice!")])).
Proof.
  apply (pages_keep_integrity demo_digest empty_store no_files).
  split; apply map_Forall_empty.
Defined.

(** X24: through the pages nothing is deleted. After any sequence of
    events, with a working store, the "My Posts" frame still holds the
    one label it got when the page was built without a user, "please log
    in", and never a post with its delete button; and every user, post
    and comment the database held at the start is still there. *)
Theorem pages_never_delete (sha256_hexdigest : string → string)
    (st : Store) (fs : FS) (evs : list (Z * event)) :
  let s := presses sha256_hexdigest (start_screen st fs) evs in
  scr_my_posts s = [PleaseLogIn] ∧
  (∀ i, is_Some (users st !! i) → is_Some (users (scr_store s) !! i)) ∧
  (∀ i, is_Some (posts st !! i) → is_Some (posts (scr_store s) !! i)) ∧
  (∀ i, is_Some (comments st !! i) → is_Some (comments (scr_store s) !! i)).
Proof. by apply presses_grow. Qed.

(** * The tree of posts by category *)

Lemma categories_append_keys (cat : string) (e : tree_entry)
    (cats : list (string * list tree_entry)) :
  (cat ∈ cats.*1 ∧ (categories_append cat e cats).*1 = cats.*1) ∨
  ((cat ∉ cats.*1) ∧
   (categories_append cat e cats).*1 = (cats.*1 ++ [cat])%list).
Proof.
  induction cats as [|[c es] rest IH].
  - right. split; [apply not_elem_of_nil|done].
  - cbn [categories_append].
    destruct (decide (c = cat)) as [->|Hne]; rewrite !fmap_cons; cbn [fst].
    + left. split; [apply list_elem_of_here|done].
    + destruct IH as [[Hin Heq]|[Hout Heq]]; rewrite Heq.
      * left. split; [by apply list_elem_of_further|done].
      * right. split; [|done].
        intros [?|?]%elem_of_cons; [congruence|done].
Qed.

Lemma categories_append_lookup (cat c : string) (e : tree_entry)
    (cats : list (string * list tree_entry)) :
  (list_to_map (categories_append cat e cats)
     : gmap string (list tree_entry)) !! c =
    if decide (c = cat)
    then Some (default [] ((list_to_map cats
                              : gmap string (list tree_entry)) !! cat)
                 ++ [e])%list
    else (list_to_map cats : gmap string (list tree_entry)) !! c.
Proof.
  induction cats as [|[c0 es] rest IH]; simpl.
  - destruct (decide (c = cat)) as [->|Hne].
    + by rewrite lookup_insert_eq.
    + by rewrite lookup_insert_ne.
  - destruct (decide (c0 = cat)) as [->|Hne0]; simpl.
    + rewrite lookup_insert_eq. simpl.
      destruct (decide (c = cat)) as [->|Hne].
      * by rewrite lookup_insert_eq.
      * by rewrite !lookup_insert_ne.
    + rewrite (lookup_insert_ne _ c0 cat) by done.
      destruct (decide (c = c0)) as [->|Hne].
      * rewrite !lookup_insert_eq. by rewrite decide_False.
      * by rewrite !lookup_insert_ne.
Qed.

Lemma group_by_category_snoc (rows : list post_listing)
    (row : post_listing) :
  group_by_category (rows ++ [row]) =
    categories_append (pl_category row) (tree_entry_of row)
                      (group_by_category rows).
Proof. unfold group_by_category. by rewrite foldl_app. Qed.

Lemma group_by_category_NoDup (rows : list post_listing) :
  NoDup (group_by_category rows).*1.
Proof.
  induction rows as [|row rows IH] using rev_ind; [constructor|].
  rewrite group_by_category_snoc.
  destruct (categories_append_keys (pl_category row) (tree_entry_of row)
              (group_by_category rows)) as [[_ ->]|[Hout ->]]; [done|].
  apply NoDup_app. split; [done|]. split; [|apply NoDup_singleton].
  intros c Hc [= ->]%list_elem_of_singleton. done.
Qed.

Lemma group_by_category_lookup (rows : list post_listing) (c : string) :
  (list_to_map (group_by_category rows)
     : gmap string (list tree_entry)) !! c =
    match rows_of_category c rows with
    | [] => None
    | r :: rs => Some (tree_entry_of <$> r :: rs)
    end.
Proof.
  induction rows as [|row rows IH] using rev_ind; [done|].
  rewrite group_by_category_snoc, categories_append_lookup.
  unfold rows_of_category in *. rewrite filter_app, filter_cons, filter_nil.
  destruct (decide (c = pl_category row)) as [->|Hne].
  - rewrite decide_True by done. rewrite IH.
    destruct (filter _ rows) as [|r rs]; simpl; [done|].
    by rewrite fmap_app.
  - rewrite decide_False by done. by rewrite app_nil_r.
Qed.

Lemma insert_category_perm (x : string * list tree_entry)
    (l : list (string * list tree_entry)) :
  insert_category x l ≡ₚ x :: l.
Proof.
  induction l as [|y l IH]; simpl; [done|].
  destruct (String.leb x.1 y.1); [done|].
  rewrite IH. apply Permutation_swap.
Qed.

Lemma sorted_items_perm (cats : list (string * list tree_entry)) :
  sorted_items cats ≡ₚ cats.
Proof.
  induction cats as [|x cats IH]; simpl; [done|].
  by rewrite insert_category_perm, IH.
Qed.

Lemma insert_category_sorted (x : string * list tree_entry)
    (l : list (string * list tree_entry)) :
  Sorted (λ a b, String.leb a.1 b.1 = true) l →
  Sorted (λ a b, String.leb a.1 b.1 = true) (insert_category x l).
Proof.
  induction l as [|y l IH]; simpl; intros Hs.
  - by repeat constructor.
  - destruct (String.leb x.1 y.1) eqn:Hle.
    + constructor; [done|]. by constructor.
    + apply Sorted_inv in Hs as [Hl Hhd].
      constructor; [by apply IH|].
      destruct l as [|z l]; simpl.
      * constructor. by destruct (String.leb_total x.1 y.1); [congruence|].
      * apply HdRel_inv in Hhd.
        destruct (String.leb x.1 z.1); constructor; [|done].
        by destruct (String.leb_total x.1 y.1); [congruence|].
Qed.

Lemma sorted_items_sorted (cats : list (string * list tree_entry)) :
  Sorted (λ a b, String.leb a.1 b.1 = true) (sorted_items cats).
Proof.
  induction cats as [|x cats IH]; simpl; [constructor|].
  by apply insert_category_sorted.
Qed.

Lemma group_by_category_elem (rows : list post_listing) (c : string)
    (es : list tree_entry) :
  (c, es) ∈ group_by_category rows ↔
  (∃ row, row ∈ rows ∧ pl_category row = c) ∧
  es = tree_entry_of <$> rows_of_category c rows.
Proof.
  rewrite (elem_of_list_to_map (M := gmap string))
    by apply group_by_category_NoDup.
  rewrite group_by_category_lookup.
  destruct (rows_of_category c rows) as [|r rs] eqn:Hrows.
  - split; [done|]. intros [(row & Hin & Hcat) _]. exfalso.
    assert (row ∈ rows_of_category c rows) as Hrow
      by (by apply list_elem_of_filter).
    rewrite Hrows in Hrow. by apply elem_of_nil in Hrow.
  - assert (r ∈ rows_of_category c rows) as Hr
      by (rewrite Hrows; apply list_elem_of_here).
    apply list_elem_of_filter in Hr as [Hcat Hin].
    split.
    + intros [= <-]. split; [by exists r|done].
    + by intros [_ ->].
Qed.

(** X25: the tree of the posts. Without posts the tree holds the one line
    "No posts available". Otherwise its top items are categories: one for
    each category some listed post has, none twice, in ascending order of
    their names, and under a category come exactly the listed posts of
    that category, in the order of the list (newest first), each with its
    title, author and time. *)
Theorem load_treeview_groups (rows : list post_listing) :
  (rows = [] →
   load_treeview rows = [PlaceholderItem "No posts available"]) ∧
  (rows ≠ [] →
   (∀ item, item ∈ load_treeview rows ↔
      ∃ row, row ∈ rows ∧
             item = CategoryItem (pl_category row)
                      (tree_child <$>
                         (tree_entry_of <$>
                            rows_of_category (pl_category row) rows))) ∧
   NoDup (item_text <$> load_treeview rows) ∧
   Sorted (λ a b, String.leb a b = true)
          (item_text <$> load_treeview rows)).
Proof.
  split; [by intros ->|]. intros Hrows. unfold load_treeview.
  assert (Hne : group_by_category rows ≠ []).
  { destruct rows as [|r rs]; [done|]. intros Hnil.
    assert ((pl_category r,
             tree_entry_of <$> rows_of_category (pl_category r) (r :: rs))
            ∈ group_by_category (r :: rs)) as Hin.
    { apply group_by_category_elem. split; [|done].
      exists r. split; [apply list_elem_of_here|done]. }
    rewrite Hnil in Hin. by apply elem_of_nil in Hin. }
  rewrite bool_decide_false by done.
  assert (Htexts : item_text <$>
            ((λ item : string * list tree_entry,
                CategoryItem item.1 (tree_child <$> item.2))
               <$> sorted_items (group_by_category rows)) =
          (sorted_items (group_by_category rows)).*1).
  { rewrite <- list_fmap_compose. by apply list_fmap_ext. }
  split; [|split].
  - intros item. rewrite list_elem_of_fmap. split.
    + intros ([c es] & -> & Hin). rewrite sorted_items_perm in Hin.
      apply group_by_category_elem in Hin as [(row & Hrow & <-) ->].
      by exists row.
    + intros (row & Hrow & ->).
      exists (pl_category row,
              tree_entry_of <$> rows_of_category (pl_category row) rows).
      split; [done|]. rewrite sorted_items_perm.
      apply group_by_category_elem. split; [by exists row|done].
  - rewrite Htexts, sorted_items_perm. apply group_by_category_NoDup.
  - rewrite Htexts.
    apply (Sorted_fmap fst (λ a b : string * list tree_entry,
                              String.leb a.1 b.1 = true)); [done|].
    apply sorted_items_sorted.
Qed.

(** ** [get_user_by_id] *)

